(** * BLE IPSP Router (PSoC 4 BLE): the advertisement filter, the peer
    registry and the event dispatcher of [BLE_IPSP_Router.cydsn/main.c].

    The embedding follows [main.c]: fixed-width C integers are [Z] with the
    wrap-around written at every operation, a [uint8*] is the memory seen
    through the pointer, the globals of the file are one record that every
    handler takes and returns, calls into the BLE component and debug
    prints are collected as an output trace, and the two loops of
    [CheckAdvPacketForServiceUuid] are run by fuel, because one of them
    need not end. *)

From Stdlib Require Import ZArith Lia Bool.
From stdpp Require Import base list strings.

Local Open Scope Z_scope.

(** ** C integers and pointers *)

Definition uint8 (z : Z) : Z := z mod 2 ^ 8.
Definition uint16 (z : Z) : Z := z mod 2 ^ 16.
Definition uint32 (z : Z) : Z := z mod 2 ^ 32.

(** A [uint8 *]: the byte found at each offset from the pointer.  The C
    code reads wherever its index arithmetic leads, also past the bytes
    the sender put on air, so a pointer is the whole memory behind it and
    not a list cut at a length. *)
Definition ptr : Type := Z -> Z.

(** [p[i]] for [uint8 *p]. *)
Definition load8 (p : ptr) (i : Z) : Z := uint8 (p i).

(** The memory that holds the bytes [l] from offset 0 on and zeros after. *)
Definition bytes (l : list Z) : ptr := fun i => nth (Z.to_nat i) l 0.

(** [n] bytes read from [p], lowest offset first. *)
Definition read_bytes (p : ptr) (n : nat) : list Z :=
  map (fun k => load8 p (Z.of_nat k)) (seq 0 n).

(** Modelled from the spec: [CyBle_Get16ByPtr] is a macro of the BLE
    component's headers, which are not among the sources.  The spec has the
    service identifier as a 16-bit value taken from two consecutive data
    bytes of a UUID-list field; advertising data carries it low byte
    first, [(uint16)(p[1] << 8) | p[0]].  The general results on the
    filter below use no more of it than that it is a function of the
    memory and the offset. *)
Definition CyBle_Get16ByPtr (p : ptr) (i : Z) : Z :=
  uint16 (Z.lor (Z.shiftl (load8 p (i + 1)) 8) (load8 p i)).

(** Modelled from the spec: the type codes of the two UUID-list fields
    the spec names (incomplete and complete list of 16-bit service UUIDs,
    0x02 and 0x03 in the advertising format), the service identifier of
    the spec's scenario (section 8: 0x1820) and the size of a device
    address; [main.c] takes all four from the component's headers. *)
Definition CYBLE_GAP_ADV_INCOMPL_16UUID : Z := 2.
Definition CYBLE_GAP_ADV_COMPL_16UUID : Z := 3.
Definition CYBLE_UUID_INTERNET_PROTOCOL_SUPPORT_SERVICE : Z := 6176.
Definition CYBLE_GAP_BD_ADDR_SIZE : nat := 6.

(** Modelled from the spec: the advertisement report handed to the
    callback with [CYBLE_EVT_GAPC_SCAN_PROGRESS_RESULT]; the struct is
    declared in the component's headers.  [main.c] reads these six
    members; [dataLen] is a [uint8], [data] and [peerBdAddr] are
    [uint8 *]. *)
Record CYBLE_GAPC_ADV_REPORT_T : Type := {
  eventType : Z;
  peerAddrType : Z;
  peerBdAddr : ptr;
  dataLen : Z;
  data : ptr;
  rssi : Z
}.

(** ** CheckAdvPacketForServiceUuid (main.c, lines 61-86) *)

(** The [for] loop of line 74, entered with [i] and [servicePresent]:
    [for(...; (i < (data[advIndex] - 1u)) && (servicePresent == 0u);
    i += sizeof(uint16))].  [data[advIndex] - 1u] is an [unsigned int]
    subtraction: a length byte of 0 gives the bound 0xFFFFFFFF. *)
Fixpoint for_uuid (fuel : nat) (eventParam : CYBLE_GAPC_ADV_REPORT_T)
    (uuid advIndex i servicePresent : Z) : option Z :=
  match fuel with
  | O => None
  | S fuel' =>
      if (i <? uint32 (load8 (data eventParam) advIndex - 1))
         && (servicePresent =? 0)
      then
        let servicePresent' :=
          if CyBle_Get16ByPtr (data eventParam) (uint32 (advIndex + 2 + i))
             =? uint16 uuid
          then 1 else servicePresent in
        for_uuid fuel' eventParam uuid advIndex (uint32 (i + 2))
          servicePresent'
      else Some servicePresent
  end.

(** The [if] of lines 70-81 on the field at [advIndex]: the loop over its
    values when its type byte says list of 16-bit UUIDs. *)
Definition check_field (fuel : nat) (eventParam : CYBLE_GAPC_ADV_REPORT_T)
    (uuid advIndex servicePresent : Z) : option Z :=
  let type := load8 (data eventParam) (uint32 (advIndex + 1)) in
  if (type =? uint8 CYBLE_GAP_ADV_INCOMPL_16UUID)
     || (type =? uint8 CYBLE_GAP_ADV_COMPL_16UUID)
  then for_uuid fuel eventParam uuid advIndex 0 servicePresent
  else Some servicePresent.

(** The [do ... while] loop of lines 67-83, entered with [advIndex] and
    [servicePresent]. *)
Fixpoint do_fields (fuel : nat) (eventParam : CYBLE_GAPC_ADV_REPORT_T)
    (uuid advIndex servicePresent : Z) : option Z :=
  match fuel with
  | O => None
  | S fuel' =>
      match check_field fuel eventParam uuid advIndex servicePresent with
      | None => None
      | Some servicePresent' =>
          let advIndex' :=
            uint32 (advIndex + uint32 (load8 (data eventParam) advIndex + 1)) in
          if (advIndex' <? uint8 (dataLen eventParam))
             && (servicePresent' =? 0)
          then do_fields fuel' eventParam uuid advIndex' servicePresent'
          else Some servicePresent'
      end
  end.

(** [None] when [fuel] loop iterations were not enough. *)
Definition CheckAdvPacketForServiceUuid (fuel : nat)
    (eventParam : CYBLE_GAPC_ADV_REPORT_T) (uuid : Z) : option Z :=
  do_fields fuel eventParam uuid 0 0.

(** A report with the given payload and address; what is not given is 0. *)
Definition mk_report (addr : list Z) (kind : Z) (payload : list Z) (len : Z)
    : CYBLE_GAPC_ADV_REPORT_T :=
  {| eventType := 0; peerAddrType := kind; peerBdAddr := bytes addr;
     dataLen := len; data := bytes payload; rssi := 0 |}.

(** ** The fields of an advertisement payload *)

Definition field_len (r : CYBLE_GAPC_ADV_REPORT_T) (off : Z) : Z :=
  load8 (data r) off.

Definition field_type (r : CYBLE_GAPC_ADV_REPORT_T) (off : Z) : Z :=
  load8 (data r) (off + 1).

Definition uuid16_list_field (r : CYBLE_GAPC_ADV_REPORT_T) (off : Z) : Prop :=
  field_type r off = CYBLE_GAP_ADV_INCOMPL_16UUID
  \/ field_type r off = CYBLE_GAP_ADV_COMPL_16UUID.

(** The field at [off] is a list of 16-bit UUIDs and one of the 16-bit
    values at the even offsets below its data length (declared length
    less the type byte) is [uuid]. *)
Definition field_has_uuid (r : CYBLE_GAPC_ADV_REPORT_T) (uuid off : Z) : Prop :=
  uuid16_list_field r off
  /\ exists k, 0 <= k /\ 2 * k < field_len r off - 1
       /\ CyBle_Get16ByPtr (data r) (off + 2 + 2 * k) = uint16 uuid.

(** Offsets of the fields [[length][type][data...]] met from [off] on, one
    after the other, as long as a field starts below the declared payload
    length; [n] bounds their number. *)
Fixpoint adv_fields (n : nat) (r : CYBLE_GAPC_ADV_REPORT_T) (off : Z)
    : list Z :=
  match n with
  | O => []
  | S n' =>
      if off <? uint8 (dataLen r)
      then off :: adv_fields n' r (off + field_len r off + 1)
      else []
  end.

(** The fields of the report as the specification has them: scanned from
    offset 0 until the declared payload length is exhausted. *)
Definition spec_fields (r : CYBLE_GAPC_ADV_REPORT_T) : list Z :=
  adv_fields (Z.to_nat (uint8 (dataLen r))) r 0.

Definition spec_has_uuid (r : CYBLE_GAPC_ADV_REPORT_T) (uuid : Z) : Prop :=
  exists off, off ∈ spec_fields r /\ field_has_uuid r uuid off.

(** The fields the [do ... while] loop examines: the one at offset 0
    whatever the declared length, then those that start below it. *)
Definition scanned_fields (r : CYBLE_GAPC_ADV_REPORT_T) : list Z :=
  0 :: adv_fields (Z.to_nat (uint8 (dataLen r))) r (field_len r 0 + 1).


(** No examined list of 16-bit UUIDs has a length byte of 0. *)
Definition uuid_fields_nonempty (r : CYBLE_GAPC_ADV_REPORT_T) : Prop :=
  forall off, off ∈ scanned_fields r -> uuid16_list_field r off ->
    field_len r off <> 0.


(** ** Types of the BLE component used by main.c *)

(** Modelled from the spec: what [CyBle_GetState()] can return (connection
    lifecycle of section 4.2, central role). *)
Inductive CYBLE_STATE_T : Type :=
| CYBLE_STATE_STOPPED
| CYBLE_STATE_INITIALIZING
| CYBLE_STATE_CONNECTED
| CYBLE_STATE_SCANNING
| CYBLE_STATE_CONNECTING
| CYBLE_STATE_DISCONNECTED.

(** Modelled from the spec: the constants [main.c] takes from [main.h] and
    from the component's configuration, neither of which is among the
    sources.  The spec leaves their values open (section 9: the low-water
    mark and the grant size are configuration), so they are parameters of
    the development.  [L2CAP_MAX_LEN / 2] is the number of [uint16] words
    of the loopback buffer and is taken to fit the 16-bit loop counter
    that fills it.  [CYBLE_STATE_value] is the number each enumerator of
    [CYBLE_STATE_T] has in the component's header; it is only ever
    printed. *)
Class main_h : Type := {
  CYBLE_MAX_ADV_DEVICES : nat;
  L2CAP_MAX_LEN : nat;
  LE_DATA_CREDITS_IPSP : Z;
  LE_WATER_MARK_IPSP : Z;
  CYBLE_L2CAP_MTU : Z;
  CYBLE_L2CAP_MPS : Z;
  CYBLE_L2CAP_PSM_LE_PSM_IPSP : Z;
  CYBLE_SCANNING_FAST : Z;
  CYBLE_STATE_value : CYBLE_STATE_T -> Z
}.

Definition CYBLE_ERROR_OK : Z := 0.

(** Modelled from the spec: the two values of the global [state] that
    [main.c] uses; [main.h] declares them. *)
Inductive app_state : Type := STATE_INIT | STATE_CONNECTING.

(** An entry of the peer registry: [uint8 bdAddr[6]; uint8 type]. *)
Record CYBLE_GAP_BD_ADDR_T : Type := {
  bdAddr : list Z;
  type : Z
}.

(** The three local parameters of a channel-open request. *)
Record CYBLE_L2CAP_CBFC_CONNECT_PARAM_T : Type := {
  mtu : Z;
  mps : Z;
  credit : Z
}.

Record CYBLE_L2CAP_CBFC_CONN_CNF_PARAM_T : Type := {
  bdHandle : Z;
  lCid : Z;
  response : Z;
  connParam : CYBLE_L2CAP_CBFC_CONNECT_PARAM_T
}.

Record CYBLE_L2CAP_CBFC_RX_PARAM_T : Type := {
  rx_lCid : Z;
  rx_result : Z;
  rxData : ptr;
  rxDataLength : Z
}.

Record CYBLE_L2CAP_CBFC_LOW_RX_CREDIT_PARAM_T : Type := {
  low_lCid : Z;
  low_credit : Z
}.

(** Calls from [main.c] into the BLE component and the power manager. *)
Inductive ble_call : Type :=
| CyBle_L2capCbfcRegisterPsm (psm creditLwm : Z)
| CyBle_GapcStartScan (scanningIntensity : Z)
| CyBle_GapcStopScan
| CyBle_GapcConnectDevice (address : option CYBLE_GAP_BD_ADDR_T)
| CyBle_GapcCancelDeviceConnection
| CyBle_GapDisconnect (handle : Z)
| CyBle_GattcStartDiscovery (handle : Z)
| CyBle_L2capCbfcConnectReq (handle remotePsm localPsm : Z)
    (param : CYBLE_L2CAP_CBFC_CONNECT_PARAM_T)
| CyBle_L2capCbfcSendFlowControlCredit (cid credits : Z)
| CyBle_L2capChannelDataWrite (handle cid : Z) (buffer : list Z)
| CyBle_StoreBondingData
| CySysPmHibernate.

(** What a handler leaves behind besides the globals: calls and debug
    lines ([DBG_PRINTF] with its format string and arguments), in order. *)
Inductive output : Type :=
| Call (c : ble_call)
| DBG_PRINTF (fmt : string) (args : list Z).

(** The BLE component as [main.c] sees it during one handler or one pass
    of the main loop: what its queries return and how it answers each
    call ([CYBLE_API_RESULT_T], 0 is [CYBLE_ERROR_OK]). *)
Record ble_stack : Type := {
  CyBle_GetState : CYBLE_STATE_T;
  cyBle_connHandle : Z * Z;
  cyBle_busyStatus : Z;
  cyBle_pendingFlashWrite : Z;
  UART_DEB_tx_pending : Z;
  CyBle_GetDeviceAddress : list Z;
  apiResult : ble_call -> Z
}.

(** Events that make [AppCallback] do more than print. *)
Inductive ble_event : Type :=
| CYBLE_EVT_STACK_ON
| CYBLE_EVT_GAPC_SCAN_PROGRESS_RESULT (advReport : CYBLE_GAPC_ADV_REPORT_T)
| CYBLE_EVT_GAPC_SCAN_START_STOP
| CYBLE_EVT_GAP_DEVICE_CONNECTED (intv : Z)
| CYBLE_EVT_GAPC_CONNECTION_UPDATE_COMPLETE
    (status intv connLatency supervisionTO : Z)
| CYBLE_EVT_GAP_DEVICE_DISCONNECTED (reason : Z)
| CYBLE_EVT_GATT_CONNECT_IND
| CYBLE_EVT_L2CAP_CBFC_CONN_CNF (p : CYBLE_L2CAP_CBFC_CONN_CNF_PARAM_T)
| CYBLE_EVT_L2CAP_CBFC_DISCONN_IND (cid : Z)
| CYBLE_EVT_L2CAP_CBFC_DATA_READ (p : CYBLE_L2CAP_CBFC_RX_PARAM_T)
| CYBLE_EVT_L2CAP_CBFC_RX_CREDIT_IND
    (p : CYBLE_L2CAP_CBFC_LOW_RX_CREDIT_PARAM_T)
| CYBLE_EVT_PRINTED (fmt : string) (args : list Z)
| CYBLE_EVT_SILENT.
(** [CYBLE_EVT_PRINTED] stands for every case of the switch whose body is
    one debug line and nothing else (timeout, hardware error, HCI status,
    the authentication and pairing events, encryption change, GATT
    disconnect, GATT error response, TX credit indication, the discovery
    events, pending flash write and the default case);
    [CYBLE_EVT_SILENT] for the two cases that are empty unless
    [DEBUG_UART_FULL] is set (stack busy status, data write indication). *)

(** ** Globals of main.c *)

Record globals : Type := {
  connIntv : Z;
  l2capConnected : bool;
  l2capParameters : CYBLE_L2CAP_CBFC_CONN_CNF_PARAM_T;
  peerAddr : list CYBLE_GAP_BD_ADDR_T;
  advDevices : Z;
  deviceN : Z;
  state : app_state;
  ipv6LoopbackBuffer : list Z;
  custom_command : Z;
  counter : Z;
  repeats : Z
}.

Definition set_connIntv (g : globals) (v : Z) : globals :=
  {| connIntv := v; l2capConnected := l2capConnected g;
     l2capParameters := l2capParameters g; peerAddr := peerAddr g;
     advDevices := advDevices g; deviceN := deviceN g; state := state g;
     ipv6LoopbackBuffer := ipv6LoopbackBuffer g;
     custom_command := custom_command g; counter := counter g;
     repeats := repeats g |}.

Definition set_l2capConnected (g : globals) (v : bool) : globals :=
  {| connIntv := connIntv g; l2capConnected := v;
     l2capParameters := l2capParameters g; peerAddr := peerAddr g;
     advDevices := advDevices g; deviceN := deviceN g; state := state g;
     ipv6LoopbackBuffer := ipv6LoopbackBuffer g;
     custom_command := custom_command g; counter := counter g;
     repeats := repeats g |}.

Definition set_l2capParameters (g : globals)
    (v : CYBLE_L2CAP_CBFC_CONN_CNF_PARAM_T) : globals :=
  {| connIntv := connIntv g; l2capConnected := l2capConnected g;
     l2capParameters := v; peerAddr := peerAddr g;
     advDevices := advDevices g; deviceN := deviceN g; state := state g;
     ipv6LoopbackBuffer := ipv6LoopbackBuffer g;
     custom_command := custom_command g; counter := counter g;
     repeats := repeats g |}.

Definition set_registry (g : globals) (v : list CYBLE_GAP_BD_ADDR_T) (n : Z)
    : globals :=
  {| connIntv := connIntv g; l2capConnected := l2capConnected g;
     l2capParameters := l2capParameters g; peerAddr := v;
     advDevices := n; deviceN := deviceN g; state := state g;
     ipv6LoopbackBuffer := ipv6LoopbackBuffer g;
     custom_command := custom_command g; counter := counter g;
     repeats := repeats g |}.

Definition set_deviceN (g : globals) (v : Z) : globals :=
  {| connIntv := connIntv g; l2capConnected := l2capConnected g;
     l2capParameters := l2capParameters g; peerAddr := peerAddr g;
     advDevices := advDevices g; deviceN := v; state := state g;
     ipv6LoopbackBuffer := ipv6LoopbackBuffer g;
     custom_command := custom_command g; counter := counter g;
     repeats := repeats g |}.

Definition set_state (g : globals) (v : app_state) : globals :=
  {| connIntv := connIntv g; l2capConnected := l2capConnected g;
     l2capParameters := l2capParameters g; peerAddr := peerAddr g;
     advDevices := advDevices g; deviceN := deviceN g; state := v;
     ipv6LoopbackBuffer := ipv6LoopbackBuffer g;
     custom_command := custom_command g; counter := counter g;
     repeats := repeats g |}.

Definition set_custom_command (g : globals) (v : Z) : globals :=
  {| connIntv := connIntv g; l2capConnected := l2capConnected g;
     l2capParameters := l2capParameters g; peerAddr := peerAddr g;
     advDevices := advDevices g; deviceN := deviceN g; state := state g;
     ipv6LoopbackBuffer := ipv6LoopbackBuffer g;
     custom_command := v; counter := counter g;
     repeats := repeats g |}.

Definition set_loopback (g : globals) (buf : list Z) (c r : Z) : globals :=
  {| connIntv := connIntv g; l2capConnected := l2capConnected g;
     l2capParameters := l2capParameters g; peerAddr := peerAddr g;
     advDevices := advDevices g; deviceN := deviceN g; state := state g;
     ipv6LoopbackBuffer := buf;
     custom_command := custom_command g; counter := c;
     repeats := r |}.

(** ** memcmp, memcpy and the byte view of the loopback buffer *)

Fixpoint memcmp_bytes (a b : list Z) : Z :=
  match a, b with
  | x :: a', y :: b' => if x =? y then memcmp_bytes a' b' else x - y
  | _, _ => 0
  end.

(** [memcmp(p, q, n)]: 0 when the first [n] bytes agree, else the
    difference of the first pair that does not. *)
Definition memcmp (p q : ptr) (n : nat) : Z :=
  memcmp_bytes (read_bytes p n) (read_bytes q n).

(** [ipv6LoopbackBuffer] cast to a byte pointer: the [uint16] words seen
    as bytes, low byte first as the Cortex-M0 stores them.  Past the last
    word the model reads 0; the C code gets there only when
    [L2CAP_MAX_LEN] is odd, and then reads the byte that follows the
    array. *)
Definition word_bytes (words : list Z) : ptr :=
  fun i =>
    let w := uint16 (nth (Z.to_nat (i / 2)) words 0) in
    if Z.even i then w mod 256 else w / 256.

(** The registered part of the registry: the first [advDevices] entries
    of [peerAddr]. *)
Definition registry (g : globals) : list CYBLE_GAP_BD_ADDR_T :=
  take (Z.to_nat (advDevices g)) (peerAddr g).

(** The loop of lines 186-195 over the entries [i], [i + 1], ...: the
    index of the first whose six address bytes equal those of the
    report ([newDevice = 0u; break]), or nothing when the loop runs to
    its end with [newDevice] still 1. *)
Fixpoint logged_at (peerBd : ptr) (entries : list CYBLE_GAP_BD_ADDR_T)
    (i : Z) : option Z :=
  match entries with
  | [] => None
  | e :: rest =>
      if memcmp (bytes (bdAddr e)) peerBd CYBLE_GAP_BD_ADDR_SIZE =? 0
      then Some i
      else logged_at peerBd rest (i + 1)
  end.

Local Open Scope string_scope.
Local Open Scope list_scope.
Local Open Scope Z_scope.

Definition wrap_failed : output := DBG_PRINTF "Wraparound failed \r\n" [].

Section Router.

Context {cfg : main_h}.

(** Lines 183-218, run when the filter has accepted the report. *)
Definition log_device (g : globals) (advReport : CYBLE_GAPC_ADV_REPORT_T)
    : globals * list output :=
  let head :=
    [DBG_PRINTF "Advertisement report: eventType = %x, peerAddrType - %x, "
       [eventType advReport; peerAddrType advReport];
     DBG_PRINTF "peerBdAddr - " []] in
  let tail :=
    map (fun k => DBG_PRINTF "%2.2x" [load8 (peerBdAddr advReport) (Z.of_nat k)])
        (rev (seq 0 CYBLE_GAP_BD_ADDR_SIZE))
    ++ [DBG_PRINTF ", rssi - %d dBm" [rssi advReport]; DBG_PRINTF "\r\n" []] in
  match logged_at (peerBdAddr advReport) (registry g) 0 with
  | Some i => (g, head ++ [DBG_PRINTF "%x: " [i]] ++ tail)
  | None =>
      if advDevices g <? Z.of_nat CYBLE_MAX_ADV_DEVICES
      then
        let entry :=
          {| bdAddr := read_bytes (peerBdAddr advReport) CYBLE_GAP_BD_ADDR_SIZE;
             type := uint8 (peerAddrType advReport) |} in
        (set_registry g (<[Z.to_nat (advDevices g) := entry]> (peerAddr g))
           (uint8 (advDevices g + 1)),
         head ++ [DBG_PRINTF "%x: " [advDevices g]] ++ tail)
      else (g, head ++ tail)
  end.

(** Command ['1'] of the main loop, lines 704-730: fill the loopback
    buffer from the running counter and write it to the channel. *)
Definition send_loopback (ble : ble_stack) (g : globals)
    : globals * list output :=
  let words := (L2CAP_MAX_LEN / 2)%nat in
  let buf :=
    map (fun k => uint16 (counter g + Z.of_nat k)) (seq 0 words) in
  let g' :=
    set_loopback g buf (uint16 (counter g + Z.of_nat words))
      (uint16 (repeats g + 1)) in
  let write :=
    CyBle_L2capChannelDataWrite (snd (cyBle_connHandle ble))
      (lCid (l2capParameters g))
      (read_bytes (word_bytes buf) L2CAP_MAX_LEN) in
  (g',
   [DBG_PRINTF "-> CyBle_L2capChannelDataWrite #%d \r\n" [repeats g];
    Call write]
   ++ (if apiResult ble write =? CYBLE_ERROR_OK then []
       else [DBG_PRINTF "CyBle_L2capChannelDataWrite API Error: %x \r\n"
               [apiResult ble write]])).

(** ** AppCallback (main.c, lines 118-476) *)

(** One case per event; the lines under [DEBUG_UART_FULL] are left out,
    and so are the LED and the UART flush before hibernation.  The debug
    line of the scan start/stop event prints [CyBle_GetState()], whose
    numeric value the headers fix; it is printed without argument here. *)

Definition AppCallback (fuel : nat) (ble : ble_stack) (g : globals)
    (event : ble_event) : option (globals * list output) :=
  match event with
  | CYBLE_EVT_STACK_ON =>
      let reg :=
        CyBle_L2capCbfcRegisterPsm CYBLE_L2CAP_PSM_LE_PSM_IPSP
          LE_WATER_MARK_IPSP in
      let scan := CyBle_GapcStartScan CYBLE_SCANNING_FAST in
      Some (g,
        [Call reg]
        ++ (if apiResult ble reg =? CYBLE_ERROR_OK then []
            else [DBG_PRINTF "CyBle_L2capCbfcRegisterPsm API Error: %d \r\n"
                    [apiResult ble reg]])
        ++ [Call scan]
        ++ (if apiResult ble scan =? CYBLE_ERROR_OK
            then [DBG_PRINTF "Bluetooth On, StartScan with addr: " []]
                 ++ map (fun b => DBG_PRINTF "%2.2x" [b])
                      (rev (CyBle_GetDeviceAddress ble))
                 ++ [DBG_PRINTF "\r\n" []]
            else [DBG_PRINTF "StartScan API Error: %xd \r\n"
                    [apiResult ble scan]]))
  | CYBLE_EVT_GAPC_SCAN_PROGRESS_RESULT advReport =>
      match CheckAdvPacketForServiceUuid fuel advReport
              CYBLE_UUID_INTERNET_PROTOCOL_SUPPORT_SERVICE with
      | None => None
      | Some present =>
          if present =? 0 then Some (g, []) else Some (log_device g advReport)
      end
  | CYBLE_EVT_GAPC_SCAN_START_STOP =>
      let line :=
        DBG_PRINTF "CYBLE_EVT_GAPC_SCAN_START_STOP, state: %x\r\n"
          [CYBLE_STATE_value (CyBle_GetState ble)] in
      match CyBle_GetState ble with
      | CYBLE_STATE_DISCONNECTED =>
          match state g with
          | STATE_CONNECTING =>
              let conn :=
                CyBle_GapcConnectDevice
                  (peerAddr g !! Z.to_nat (deviceN g)) in
              Some (g,
                [line; DBG_PRINTF "GAPC_END_SCANNING\r\n" []; Call conn]
                ++ (if apiResult ble conn =? CYBLE_ERROR_OK then []
                    else [DBG_PRINTF "ConnectDevice API Error: %x \r\n"
                            [apiResult ble conn]]))
          | STATE_INIT =>
              Some (g,
                [line; DBG_PRINTF "Hibernate \r\n" []; Call CySysPmHibernate])
          end
      | _ => Some (g, [line])
      end
  | CYBLE_EVT_GAP_DEVICE_CONNECTED intv =>
      let v := uint16 (uint16 intv * 5 / 4) in
      Some (set_connIntv g v,
        [DBG_PRINTF "CYBLE_EVT_GAP_DEVICE_CONNECTED: connIntv = %d ms \r\n"
           [v]])
  | CYBLE_EVT_GAPC_CONNECTION_UPDATE_COMPLETE status intv latency sto =>
      Some (set_connIntv g (uint16 (uint16 intv * 5 / 4)),
        [DBG_PRINTF
           "CYBLE_EVT_GAPC_CONNECTION_UPDATE_COMPLETE: %x, %x, %x, %x \r\n"
           [status; intv; latency; sto]])
  | CYBLE_EVT_GAP_DEVICE_DISCONNECTED reason =>
      let scan := CyBle_GapcStartScan CYBLE_SCANNING_FAST in
      Some (g,
        [DBG_PRINTF "CYBLE_EVT_GAP_DEVICE_DISCONNECTED: %x\r\n" [reason];
         Call scan]
        ++ (if apiResult ble scan =? CYBLE_ERROR_OK then []
            else [DBG_PRINTF "StartScan API Error: %xd \r\n"
                    [apiResult ble scan]]))
  | CYBLE_EVT_GATT_CONNECT_IND =>
      let cbfcConnParameters :=
        {| mtu := CYBLE_L2CAP_MTU; mps := CYBLE_L2CAP_MPS;
           credit := LE_DATA_CREDITS_IPSP |} in
      let req :=
        CyBle_L2capCbfcConnectReq (snd (cyBle_connHandle ble))
          CYBLE_L2CAP_PSM_LE_PSM_IPSP CYBLE_L2CAP_PSM_LE_PSM_IPSP
          cbfcConnParameters in
      Some (g,
        [DBG_PRINTF "CYBLE_EVT_GATT_CONNECT_IND: %x, %x \r\n"
           [fst (cyBle_connHandle ble); snd (cyBle_connHandle ble)];
         Call req;
         if apiResult ble req =? CYBLE_ERROR_OK
         then DBG_PRINTF "L2CAP channel connection request sent. \r\n" []
         else DBG_PRINTF "CyBle_L2capCbfcConnectReq API Error: %d \r\n"
                [apiResult ble req]])
  | CYBLE_EVT_L2CAP_CBFC_CONN_CNF p =>
      Some (set_l2capConnected (set_l2capParameters g p) true,
        [DBG_PRINTF
           "CYBLE_EVT_L2CAP_CBFC_CONN_CNF: bdHandle=%d, lCid=%d, responce=%d"
           [bdHandle p; lCid p; response p];
         DBG_PRINTF ", connParam: mtu=%d, mps=%d, credit=%d\r\n"
           [mtu (connParam p); mps (connParam p); credit (connParam p)]])
  | CYBLE_EVT_L2CAP_CBFC_DISCONN_IND cid =>
      Some (set_l2capConnected g false,
        [DBG_PRINTF "CYBLE_EVT_L2CAP_CBFC_DISCONN_IND: %d \r\n" [cid]])
  | CYBLE_EVT_L2CAP_CBFC_DATA_READ rxDataParam =>
      let head :=
        [DBG_PRINTF "<- EVT_L2CAP_CBFC_DATA_READ: lCid=%d, result=%d, len=%d"
           [rx_lCid rxDataParam; rx_result rxDataParam;
            rxDataLength rxDataParam];
         DBG_PRINTF "\r\n" []] in
      if memcmp (word_bytes (ipv6LoopbackBuffer g)) (rxData rxDataParam)
           L2CAP_MAX_LEN =? 0
      then Some (set_custom_command g 49, head)
      else Some (g, head ++ [wrap_failed])
  | CYBLE_EVT_L2CAP_CBFC_RX_CREDIT_IND rxCreditParam =>
      let grant :=
        CyBle_L2capCbfcSendFlowControlCredit (low_lCid rxCreditParam)
          LE_DATA_CREDITS_IPSP in
      Some (g,
        [DBG_PRINTF "CYBLE_EVT_L2CAP_CBFC_RX_CREDIT_IND: lCid=%d, credit=%d \r\n"
           [low_lCid rxCreditParam; low_credit rxCreditParam];
         Call grant]
        ++ (if apiResult ble grant =? CYBLE_ERROR_OK then []
            else [DBG_PRINTF
                    "CyBle_L2capCbfcSendFlowControlCredit API Error: %d \r\n"
                    [apiResult ble grant]]))
  | CYBLE_EVT_PRINTED fmt args => Some (g, [DBG_PRINTF fmt args])
  | CYBLE_EVT_SILENT => Some (g, [])
  end.

(** ** The main loop (main.c, lines 647-756) *)

(** The switch of lines 662-742 on [command]; [digit] is the first
    non-zero character the wait of command ['z'] gets from the UART. *)
Definition run_command (ble : ble_stack) (g : globals) (command digit : Z)
    : globals * list output :=
  if command =? 99 then
    (set_state g STATE_CONNECTING, [Call CyBle_GapcStopScan])
  else if command =? 118 then
    (g, [Call CyBle_GapcCancelDeviceConnection;
         DBG_PRINTF "CyBle_GapcCancelDeviceConnection: %x\r\n"
           [apiResult ble CyBle_GapcCancelDeviceConnection]])
  else if command =? 100 then
    let disc := CyBle_GapDisconnect (snd (cyBle_connHandle ble)) in
    (g, [Call disc]
        ++ (if apiResult ble disc =? CYBLE_ERROR_OK then []
            else [DBG_PRINTF "DisconnectDevice API Error: %x \r\n"
                    [apiResult ble disc]]))
  else if command =? 115 then
    let disc := CyBle_GattcStartDiscovery (snd (cyBle_connHandle ble)) in
    (g, [Call disc; DBG_PRINTF "StartDiscovery \r\n" []]
        ++ (if apiResult ble disc =? CYBLE_ERROR_OK then []
            else [DBG_PRINTF "StartDiscovery API Error: %x \r\n"
                    [apiResult ble disc]]))
  else if command =? 122 then
    if (48 <=? uint8 digit) && (uint8 digit <=? 57)
    then (set_deviceN g (uint8 (uint8 digit - 48)),
          [DBG_PRINTF "Select Device:\n" [];
           DBG_PRINTF "%c\n" [uint8 digit]])
    else (g, [DBG_PRINTF "Select Device:\n" [];
              DBG_PRINTF " Wrong digit \r\n" []])
  else if command =? 49 then send_loopback ble g
  else if command =? 104 then
    (g, [DBG_PRINTF "\r\n" [];
         DBG_PRINTF "Available commands:\r\n" [];
         DBG_PRINTF " 'h' - Help menu.\r\n" [];
         DBG_PRINTF " 'z' + 'Number' - Select peer device.\r\n" [];
         DBG_PRINTF " 'c' - Send connect request to peer device.\r\n" [];
         DBG_PRINTF " 'd' - Send disconnect request to peer device.\r\n" [];
         DBG_PRINTF " 'v' - Cancel connection request.\r\n" [];
         DBG_PRINTF " 's' - Start discovery procedure.\r\n" [];
         DBG_PRINTF " '1' - Send Data packet to Node though IPSP channel.\r\n"
           []])
  else (g, []).

(** Lines 655-755, what one pass of the loop does once
    [CyBle_ProcessEvents] has returned: take a character from the UART
    ([uart], 0 when there is none) or the command an event handler left
    in [custom_command], run it, then store bonding data if the
    component asks for it and the debug UART is idle. *)
Definition main_poll (ble : ble_stack) (g : globals) (uart digit : Z)
    : globals * list output :=
  let '(g1, out1) :=
    if negb (uint8 uart =? 0)
       || (negb (custom_command g =? 0) && (cyBle_busyStatus ble =? 0))
    then
      if negb (custom_command g =? 0)
      then run_command ble (set_custom_command g 0) (custom_command g) digit
      else run_command ble g (uint8 uart) digit
    else (g, []) in
  (g1,
   out1
   ++ (if negb (cyBle_pendingFlashWrite ble =? 0)
          && (UART_DEB_tx_pending ble =? 0)
       then [Call CyBle_StoreBondingData;
             DBG_PRINTF "Store bonding data, status: %x \r\n"
               [apiResult ble CyBle_StoreBondingData]]
       else [])).

(** What drives the program: an event the component hands to
    [AppCallback] while [CyBle_ProcessEvents] runs, or the rest of one
    pass of the main loop.  Each comes with the component as it stands
    at that moment. *)
Inductive input : Type :=
| Event (ble : ble_stack) (event : ble_event)
| Poll (ble : ble_stack) (uart digit : Z).

Definition step (fuel : nat) (g : globals) (i : input)
    : option (globals * list output) :=
  match i with
  | Event ble event => AppCallback fuel ble g event
  | Poll ble uart digit => Some (main_poll ble g uart digit)
  end.

(** The globals and the whole output after a sequence of inputs. *)
Fixpoint run (fuel : nat) (g : globals) (inputs : list input)
    : option (globals * list output) :=
  match inputs with
  | [] => Some (g, [])
  | i :: rest =>
      match step fuel g i with
      | None => None
      | Some (g1, out1) =>
          match run fuel g1 rest with
          | None => None
          | Some (g2, out2) => Some (g2, out1 ++ out2)
          end
      end
  end.

(** The globals as the C start-up code leaves them. *)
Definition init : globals :=
  {| connIntv := 0; l2capConnected := false;
     l2capParameters :=
       {| bdHandle := 0; lCid := 0; response := 0;
          connParam := {| mtu := 0; mps := 0; credit := 0 |} |};
     peerAddr :=
       replicate CYBLE_MAX_ADV_DEVICES
         {| bdAddr := replicate CYBLE_GAP_BD_ADDR_SIZE 0; type := 0 |};
     advDevices := 0; deviceN := 0; state := STATE_INIT;
     ipv6LoopbackBuffer := replicate (L2CAP_MAX_LEN / 2)%nat 0;
     custom_command := 0; counter := 0; repeats := 0 |}.

(** The scan-result handler alone over a sequence of sightings. *)
Definition sightings (rs : list CYBLE_GAPC_ADV_REPORT_T) (ble : ble_stack)
    : list input :=
  map (fun r => Event ble (CYBLE_EVT_GAPC_SCAN_PROGRESS_RESULT r)) rs.

(** ** What the output says *)

Definition calls (out : list output) : list ble_call :=
  omap (fun o => match o with Call c => Some c | DBG_PRINTF _ _ => None end)
       out.

(** Credit grants sent to the peer: channel and number of credits. *)
Definition grants (out : list output) : list (Z * Z) :=
  omap (fun c =>
          match c with
          | CyBle_L2capCbfcSendFlowControlCredit cid n => Some (cid, n)
          | _ => None
          end) (calls out).

(** Channels of the low-receive-credit indications among the inputs. *)
Definition low_credit_indications (inputs : list input) : list Z :=
  omap (fun i =>
          match i with
          | Event _ (CYBLE_EVT_L2CAP_CBFC_RX_CREDIT_IND p) => Some (low_lCid p)
          | _ => None
          end) inputs.

(** Peer addresses handed to [CyBle_GapcConnectDevice]. *)
Definition connects (out : list output) : list (option CYBLE_GAP_BD_ADDR_T) :=
  omap (fun c =>
          match c with CyBle_GapcConnectDevice a => Some a | _ => None end)
       (calls out).

(** Payloads handed to [CyBle_L2capChannelDataWrite]. *)
Definition writes (out : list output) : list (list Z) :=
  omap (fun c =>
          match c with
          | CyBle_L2capChannelDataWrite _ _ buffer => Some buffer
          | _ => None
          end) (calls out).


(** The calls each case of the switch of [AppCallback] makes. *)
Definition event_calls (ble : ble_stack) (g : globals) (event : ble_event)
    : list ble_call :=
  match event with
  | CYBLE_EVT_STACK_ON =>
      [CyBle_L2capCbfcRegisterPsm CYBLE_L2CAP_PSM_LE_PSM_IPSP
         LE_WATER_MARK_IPSP;
       CyBle_GapcStartScan CYBLE_SCANNING_FAST]
  | CYBLE_EVT_GAPC_SCAN_START_STOP =>
      match CyBle_GetState ble, state g with
      | CYBLE_STATE_DISCONNECTED, STATE_CONNECTING =>
          [CyBle_GapcConnectDevice (peerAddr g !! Z.to_nat (deviceN g))]
      | CYBLE_STATE_DISCONNECTED, STATE_INIT => [CySysPmHibernate]
      | _, _ => []
      end
  | CYBLE_EVT_GAP_DEVICE_DISCONNECTED _ =>
      [CyBle_GapcStartScan CYBLE_SCANNING_FAST]
  | CYBLE_EVT_GATT_CONNECT_IND =>
      [CyBle_L2capCbfcConnectReq (snd (cyBle_connHandle ble))
         CYBLE_L2CAP_PSM_LE_PSM_IPSP CYBLE_L2CAP_PSM_LE_PSM_IPSP
         {| mtu := CYBLE_L2CAP_MTU; mps := CYBLE_L2CAP_MPS;
            credit := LE_DATA_CREDITS_IPSP |}]
  | CYBLE_EVT_L2CAP_CBFC_RX_CREDIT_IND p =>
      [CyBle_L2capCbfcSendFlowControlCredit (low_lCid p) LE_DATA_CREDITS_IPSP]
  | _ => []
  end.

(** The payload command ['1'] writes: the loopback buffer as it has just
    been filled. *)
Definition next_payload (g : globals) : list Z :=
  read_bytes
    (word_bytes
       (map (fun k => uint16 (counter g + Z.of_nat k))
            (seq 0 (L2CAP_MAX_LEN / 2)%nat)))
    L2CAP_MAX_LEN.

(** The calls each command of the main loop makes. *)
Definition command_calls (ble : ble_stack) (g : globals) (command : Z)
    : list ble_call :=
  if command =? 99 then [CyBle_GapcStopScan]
  else if command =? 118 then [CyBle_GapcCancelDeviceConnection]
  else if command =? 100 then [CyBle_GapDisconnect (snd (cyBle_connHandle ble))]
  else if command =? 115
  then [CyBle_GattcStartDiscovery (snd (cyBle_connHandle ble))]
  else if command =? 122 then []
  else if command =? 49
  then [CyBle_L2capChannelDataWrite (snd (cyBle_connHandle ble))
          (lCid (l2capParameters g)) (next_payload g)]
  else [].

(** ** The peer registry *)

(** The address bytes of an entry are what [memcmp] reads from it. *)
Definition canonical (e : CYBLE_GAP_BD_ADDR_T) : Prop :=
  read_bytes (bytes (bdAddr e)) CYBLE_GAP_BD_ADDR_SIZE = bdAddr e.

(** What holds of the registry all along: the array keeps its size, the
    count stays within it and within a [uint8], no address is registered
    twice. *)
Definition registry_ok (g : globals) : Prop :=
  length (peerAddr g) = CYBLE_MAX_ADV_DEVICES
  /\ 0 <= advDevices g <= Z.of_nat CYBLE_MAX_ADV_DEVICES
  /\ advDevices g < 256
  /\ NoDup (bdAddr <$> registry g)
  /\ Forall canonical (registry g).

(** ** The connection lifecycle *)

(** Modelled from the spec: the link state of section 4.2.  It is kept by
    the BLE component, whose sources are absent, and [main.c] only reads
    it through [CyBle_GetState].  A disconnect notification finds the link
    [Disconnected], a connection notification [Connected]; a scan request
    the component accepts starts [Scanning], an accepted connect request
    [Connecting]. *)
Inductive link_state : Type :=
| Idle | Scanning | Connecting | Connected | Disconnected.

Definition link_on_event (s : link_state) (event : ble_event) : link_state :=
  match event with
  | CYBLE_EVT_GAP_DEVICE_DISCONNECTED _ => Disconnected
  | CYBLE_EVT_GAP_DEVICE_CONNECTED _ => Connected
  | _ => s
  end.

Definition link_on_output (ble : ble_stack) (s : link_state) (o : output)
    : link_state :=
  match o with
  | Call (CyBle_GapcStartScan m) =>
      if apiResult ble (CyBle_GapcStartScan m) =? CYBLE_ERROR_OK
      then Scanning else s
  | Call (CyBle_GapcConnectDevice a) =>
      if apiResult ble (CyBle_GapcConnectDevice a) =? CYBLE_ERROR_OK
      then Connecting else s
  | _ => s
  end.

(** The link state after the component has raised [event] and
    [AppCallback] has answered with [out]. *)
Definition link_after (ble : ble_stack) (s : link_state) (event : ble_event)
    (out : list output) : link_state :=
  fold_left (link_on_output ble) out (link_on_event s event).

End Router.

(** ** A configuration and inputs to run the model on *)

(** The enumerators numbered from 0 in the order of their declaration. *)
Definition state_number (s : CYBLE_STATE_T) : Z :=
  match s with
  | CYBLE_STATE_STOPPED => 0
  | CYBLE_STATE_INITIALIZING => 1
  | CYBLE_STATE_CONNECTED => 2
  | CYBLE_STATE_SCANNING => 3
  | CYBLE_STATE_CONNECTING => 4
  | CYBLE_STATE_DISCONNECTED => 5
  end.

Definition small_config : main_h :=
  {| CYBLE_MAX_ADV_DEVICES := 2; L2CAP_MAX_LEN := 4;
     LE_DATA_CREDITS_IPSP := 1000; LE_WATER_MARK_IPSP := 10;
     CYBLE_L2CAP_MTU := 1280; CYBLE_L2CAP_MPS := 1280;
     CYBLE_L2CAP_PSM_LE_PSM_IPSP := 35; CYBLE_SCANNING_FAST := 0;
     CYBLE_STATE_value := state_number |}.

(** A component that accepts every call. *)
Definition quiet_stack (s : CYBLE_STATE_T) : ble_stack :=
  {| CyBle_GetState := s; cyBle_connHandle := (0, 4);
     cyBle_busyStatus := 0; cyBle_pendingFlashWrite := 0;
     UART_DEB_tx_pending := 0; CyBle_GetDeviceAddress := [1;2;3;4;5;6];
     apiResult := fun _ => CYBLE_ERROR_OK |}.

(** An IPSS advertiser with the given address and address kind. *)
Definition ipss_report (addr : list Z) (kind : Z) : CYBLE_GAPC_ADV_REPORT_T :=
  mk_report addr kind [2;1;6;3;3;32;24] 7.

(** Three advertisers of the service, the first seen twice, against a
    registry of two entries. *)
Definition four_sightings : list input :=
  sightings [ipss_report [1;2;3;4;5;6] 0; ipss_report [7;7;7;7;7;7] 1;
             ipss_report [1;2;3;4;5;6] 0; ipss_report [9;9;9;9;9;9] 0]
            (quiet_stack CYBLE_STATE_SCANNING).

(** The globals once the address [01 02 03 04 05 06] has been registered
    as public (kind 0). *)
Definition one_entry : globals :=
  set_registry (init (cfg:=small_config))
    [ {| bdAddr := [1;2;3;4;5;6]; type := 0 |};
      {| bdAddr := [0;0;0;0;0;0]; type := 0 |} ] 1.


(** The same globals after command ['c']. *)
Definition one_entry_connecting : globals :=
  set_state one_entry STATE_CONNECTING.

(** Stack on, two low-receive-credit indications on channel 64 with a
    pass of the main loop and a sighting in between. *)
Definition two_indications : list input :=
  [ Event (quiet_stack CYBLE_STATE_INITIALIZING) CYBLE_EVT_STACK_ON;
    Event (quiet_stack CYBLE_STATE_CONNECTED)
      (CYBLE_EVT_L2CAP_CBFC_RX_CREDIT_IND {| low_lCid := 64; low_credit := 10 |});
    Poll (quiet_stack CYBLE_STATE_CONNECTED) 104 0;
    Event (quiet_stack CYBLE_STATE_CONNECTED)
      (CYBLE_EVT_GAPC_SCAN_PROGRESS_RESULT (ipss_report [1;2;3;4;5;6] 0));
    Event (quiet_stack CYBLE_STATE_CONNECTED)
      (CYBLE_EVT_L2CAP_CBFC_RX_CREDIT_IND {| low_lCid := 64; low_credit := 9 |}) ].

(** Command ['1'] typed on the UART. *)
Definition first_send : list input :=
  [ Poll (quiet_stack CYBLE_STATE_CONNECTED) 49 0 ].

(** A delivered payload of four bytes. *)
Definition delivered (payload : list Z) : CYBLE_L2CAP_CBFC_RX_PARAM_T :=
  {| rx_lCid := 64; rx_result := 0; rxData := bytes payload;
     rxDataLength := 4 |}.




(** A confirmation that refuses the channel (response 2). *)
Definition refused : CYBLE_L2CAP_CBFC_CONN_CNF_PARAM_T :=
  {| bdHandle := 4; lCid := 64; response := 2;
     connParam := {| mtu := 0; mps := 0; credit := 0 |} |}.

(** ** Well-formed payloads *)

(** The fields tile the declared length: the payload is not empty, every
    field has at least its type byte and ends within the declared length,
    and a list of 16-bit UUIDs holds whole values (its length byte, which
    counts the type byte, is odd). *)
Definition well_formed (r : CYBLE_GAPC_ADV_REPORT_T) : Prop :=
  0 < uint8 (dataLen r)
  /\ forall off, off ∈ spec_fields r ->
       1 <= field_len r off
       /\ off + field_len r off + 1 <= uint8 (dataLen r)
       /\ (uuid16_list_field r off -> Z.odd (field_len r off) = true).

(** Two reports with the same declared length and the same bytes below
    it; what lies behind may differ. *)
Definition same_payload (r r' : CYBLE_GAPC_ADV_REPORT_T) : Prop :=
  uint8 (dataLen r) = uint8 (dataLen r')
  /\ forall i, 0 <= i < uint8 (dataLen r) ->
       load8 (data r) i = load8 (data r') i.

Section RouterMore.

Context {cfg : main_h}.

(** ** Sightings the filter lets through *)

(** The scan-result handler goes on to the registry for this report. *)
Definition accepted (fuel : nat) (r : CYBLE_GAPC_ADV_REPORT_T) : bool :=
  match CheckAdvPacketForServiceUuid fuel r
          CYBLE_UUID_INTERNET_PROTOCOL_SUPPORT_SERVICE with
  | Some present => negb (present =? 0)
  | None => false
  end.

Definition accepted_sightings (fuel : nat) (inputs : list input)
    : list CYBLE_GAPC_ADV_REPORT_T :=
  omap (fun i =>
          match i with
          | Event _ (CYBLE_EVT_GAPC_SCAN_PROGRESS_RESULT r) =>
              if accepted fuel r then Some r else None
          | _ => None
          end) inputs.

(** The entry lines 200-201 write for a report. *)
Definition entry_of (r : CYBLE_GAPC_ADV_REPORT_T) : CYBLE_GAP_BD_ADDR_T :=
  {| bdAddr := read_bytes (peerBdAddr r) CYBLE_GAP_BD_ADDR_SIZE;
     type := uint8 (peerAddrType r) |}.

(** ** The channel flag and parameters over the inputs *)

(** What each channel event makes of [l2capConnected]. *)
Definition channel_flags (inputs : list input) : list bool :=
  omap (fun i =>
          match i with
          | Event _ (CYBLE_EVT_L2CAP_CBFC_CONN_CNF _) => Some true
          | Event _ (CYBLE_EVT_L2CAP_CBFC_DISCONN_IND _) => Some false
          | _ => None
          end) inputs.

Definition confirmations (inputs : list input)
    : list CYBLE_L2CAP_CBFC_CONN_CNF_PARAM_T :=
  omap (fun i =>
          match i with
          | Event _ (CYBLE_EVT_L2CAP_CBFC_CONN_CNF p) => Some p
          | _ => None
          end) inputs.

End RouterMore.

(** ** Timer_Interrupt (main.c, lines 494-504) *)

Section Indication.

(** Modelled from the spec: [LED_ON] and [LED_OFF] come from [main.h],
    which is not among the sources; the spec leaves LED indication to the
    surrounding system, so both are parameters. *)
Variables LED_ON LED_OFF : Z.

(** One tick of the watchdog timer: the static [led] after it and what is
    written to the scanning LED, if anything. *)
Definition Timer_Interrupt (s : CYBLE_STATE_T) (led : Z) : Z * list Z :=
  match s with
  | CYBLE_STATE_SCANNING =>
      let led' := uint8 (Z.lxor led LED_ON) in (led', [led'])
  | _ => (led, [])
  end.

(** The static [led], first [LED_OFF], after the ticks that found the
    component in the given states, and all that was written. *)
Fixpoint ticks (states : list CYBLE_STATE_T) (led : Z) : Z * list Z :=
  match states with
  | [] => (led, [])
  | s :: rest =>
      let '(led1, w1) := Timer_Interrupt s led in
      let '(led2, w2) := ticks rest led1 in
      (led2, w1 ++ w2)
  end.

(** How many of the ticks found the component scanning. *)
Fixpoint scanning_ticks (states : list CYBLE_STATE_T) : nat :=
  match states with
  | [] => 0
  | CYBLE_STATE_SCANNING :: rest => S (scanning_ticks rest)
  | _ :: rest => scanning_ticks rest
  end.

End Indication.

(** A report whose payload is followed by other bytes in memory. *)
Definition ipss_report_then (behind : list Z) : CYBLE_GAPC_ADV_REPORT_T :=
  mk_report [1;2;3;4;5;6] 0 ([2;1;6;3;3;32;24] ++ behind) 7.

(** A report of flags and a TX power level, with no list of UUIDs. *)
Definition plain_report : CYBLE_GAPC_ADV_REPORT_T :=
  mk_report [1;2;3;4;5;6] 0 [2;1;6;2;10;0] 6.

(** A registry of ten entries, so that every index a digit can select
    lies within it. *)
Definition ten_config : main_h :=
  {| CYBLE_MAX_ADV_DEVICES := 10; L2CAP_MAX_LEN := 4;
     LE_DATA_CREDITS_IPSP := 1000; LE_WATER_MARK_IPSP := 10;
     CYBLE_L2CAP_MTU := 1280; CYBLE_L2CAP_MPS := 1280;
     CYBLE_L2CAP_PSM_LE_PSM_IPSP := 35; CYBLE_SCANNING_FAST := 0;
     CYBLE_STATE_value := state_number |}.

(** Command ['z'] with digit ['7'], command ['c'], then the scan stops. *)
Definition select_seven_and_connect : list input :=
  [ Poll (quiet_stack CYBLE_STATE_SCANNING) 122 55;
    Poll (quiet_stack CYBLE_STATE_SCANNING) 99 0;
    Event (quiet_stack CYBLE_STATE_DISCONNECTED)
      CYBLE_EVT_GAPC_SCAN_START_STOP ].

(** A channel confirmation, then the link is lost and a help command is
    typed. *)
Definition channel_then_link_loss : list input :=
  [ Event (quiet_stack CYBLE_STATE_CONNECTED)
      (CYBLE_EVT_L2CAP_CBFC_CONN_CNF refused);
    Event (quiet_stack CYBLE_STATE_DISCONNECTED)
      (CYBLE_EVT_GAP_DEVICE_DISCONNECTED 19);
    Poll (quiet_stack CYBLE_STATE_DISCONNECTED) 104 0 ].

(** Two sends with the echo of the first in between. *)
Definition two_sends : list input :=
  [ Poll (quiet_stack CYBLE_STATE_CONNECTED) 49 0;
    Event (quiet_stack CYBLE_STATE_CONNECTED)
      (CYBLE_EVT_L2CAP_CBFC_DATA_READ (delivered [0; 0; 1; 0]));
    Poll (quiet_stack CYBLE_STATE_CONNECTED) 0 0 ].

(** The globals with a send left pending by the data-read handler. *)
Definition send_pending : globals :=
  set_custom_command (init (cfg:=small_config)) 49.

(** The scan stops, the link is lost, the scan stops again. *)
Definition scan_stops_twice : list input :=
  [ Event (quiet_stack CYBLE_STATE_DISCONNECTED)
      CYBLE_EVT_GAPC_SCAN_START_STOP;
    Event (quiet_stack CYBLE_STATE_DISCONNECTED)
      (CYBLE_EVT_GAP_DEVICE_DISCONNECTED 19);
    Event (quiet_stack CYBLE_STATE_DISCONNECTED)
      CYBLE_EVT_GAPC_SCAN_START_STOP ].
(** ** Runs of the filter *)

(** Flags field, then a complete list of 16-bit UUIDs holding 0x1820. *)
Example CheckAdv_ipss :
  CheckAdvPacketForServiceUuid 512
    (mk_report [1;2;3;4;5;6] 0 [2;1;6;3;3;32;24] 7) 6176 = Some 1.
Proof. reflexivity. Qed.

Example CheckAdv_other_uuid :
  CheckAdvPacketForServiceUuid 512
    (mk_report [1;2;3;4;5;6] 0 [2;1;6;3;3;13;24] 7) 6176 = Some 0.
Proof. reflexivity. Qed.

Example CheckAdv_second_of_list :
  CheckAdvPacketForServiceUuid 512
    (mk_report [1;2;3;4;5;6] 0 [2;1;6;5;2;13;24;32;24] 9) 6176 = Some 1.
Proof. reflexivity. Qed.

Example spec_fields_flags_uuid :
  spec_fields (mk_report [] 0 [2;1;6;3;3;32;24] 7) = [0; 3].
Proof. reflexivity. Qed.

Example scanned_fields_flags_uuid :
  scanned_fields (mk_report [] 0 [2;1;6;3;3;32;24] 7) = [0; 3].
Proof. reflexivity. Qed.

Example scanned_fields_empty_payload :
  spec_fields (mk_report [] 0 [3;3;32;24] 0) = []
  /\ scanned_fields (mk_report [] 0 [3;3;32;24] 0) = [0].
Proof. split; reflexivity. Qed.

(** ** Facts on the integer casts *)

Lemma load8_range (p : ptr) (i : Z) : 0 <= load8 p i < 256.
Proof. unfold load8, uint8. apply Z.mod_pos_bound. lia. Qed.

Lemma uint8_range (z : Z) : 0 <= uint8 z < 256.
Proof. unfold uint8. apply Z.mod_pos_bound. lia. Qed.

Lemma uint32_small (z : Z) : 0 <= z < 4294967296 -> uint32 z = z.
Proof. intros H. unfold uint32. apply Z.mod_small. lia. Qed.

Lemma uint32_range (z : Z) : 0 <= uint32 z < 4294967296.
Proof. unfold uint32. apply Z.mod_pos_bound. lia. Qed.

Lemma field_len_range r off : 0 <= field_len r off < 256.
Proof. apply load8_range. Qed.

(** ** The inner loop *)

Lemma for_uuid_present fuel r uuid advIndex i servicePresent :
  servicePresent <> 0 ->
  for_uuid (S fuel) r uuid advIndex i servicePresent = Some servicePresent.
Proof.
  intros Hsp. simpl.
  destruct (Z.eqb_spec servicePresent 0) as [->|_]; [done|].
  by rewrite andb_false_r.
Qed.

(** With a length byte other than 0 the loop ends and reports whether one
    of the values at [i], [i + 2], ... below the data length is [uuid]. *)
Lemma for_uuid_spec r uuid advIndex :
  0 <= advIndex <= 255 ->
  field_len r advIndex <> 0 ->
  forall fuel i, 0 <= i ->
    (Z.to_nat (field_len r advIndex - 1 - i) < fuel)%nat ->
    exists v, for_uuid fuel r uuid advIndex i 0 = Some v
      /\ (v <> 0 <->
          exists k, 0 <= k /\ i + 2 * k < field_len r advIndex - 1
            /\ CyBle_Get16ByPtr (data r) (advIndex + 2 + (i + 2 * k))
               = uint16 uuid).
Proof.
  intros Hadv Hlen. pose proof (field_len_range r advIndex) as Hr.
  induction fuel as [|fuel IH]; intros i Hi Hfuel; [lia|].
  cbn [for_uuid]. fold (field_len r advIndex).
  rewrite (uint32_small (field_len r advIndex - 1)) by lia.
  destruct (Z.ltb_spec i (field_len r advIndex - 1)) as [Hlt|Hge]; cbn.
  - rewrite (uint32_small (advIndex + 2 + i)) by lia.
    rewrite (uint32_small (i + 2)) by lia.
    destruct (Z.eqb_spec (CyBle_Get16ByPtr (data r) (advIndex + 2 + i))
                (uint16 uuid)) as [Heq|Hne].
    + destruct fuel as [|fuel]; [lia|].
      rewrite for_uuid_present by lia. exists 1. split; [done|].
      split; [|lia]. intros _. exists 0.
      replace (i + 2 * 0) with i by lia. auto with lia.
    + destruct (IH (i + 2)) as (v & Hv & Hiff); [lia|lia|].
      exists v. split; [done|]. rewrite Hiff. split.
      * intros (k & Hk & Hb & Hg). exists (k + 1).
        replace (i + 2 * (k + 1)) with (i + 2 + 2 * k) by lia.
        auto with lia.
      * intros (k & Hk & Hb & Hg).
        destruct (Z.eq_dec k 0) as [->|Hk0].
        { replace (i + 2 * 0) with i in Hg by lia. done. }
        exists (k - 1).
        replace (i + 2 + 2 * (k - 1)) with (i + 2 * k) by lia.
        auto with lia.
  - exists 0. split; [done|]. split; [done|].
    intros (k & Hk & Hb & _). lia.
Qed.

(** ** The outer loop *)

Lemma do_fields_unfold fuel r uuid advIndex servicePresent :
  do_fields (S fuel) r uuid advIndex servicePresent =
  match check_field (S fuel) r uuid advIndex servicePresent with
  | None => None
  | Some servicePresent' =>
      let advIndex' :=
        uint32 (advIndex + uint32 (load8 (data r) advIndex + 1)) in
      if (advIndex' <? uint8 (dataLen r)) && (servicePresent' =? 0)
      then do_fields fuel r uuid advIndex' servicePresent'
      else Some servicePresent'
  end.
Proof. reflexivity. Qed.

(** The scan index moves on by the length byte and one more, never back. *)
Lemma advIndex_advances r advIndex :
  0 <= advIndex <= 255 ->
  uint32 (advIndex + uint32 (load8 (data r) advIndex + 1))
  = advIndex + field_len r advIndex + 1.
Proof.
  intros H. pose proof (field_len_range r advIndex) as Hr.
  unfold field_len in *.
  rewrite (uint32_small (load8 (data r) advIndex + 1)) by lia.
  rewrite uint32_small by lia. lia.
Qed.

(** One field: the check ends, and says whether the field holds [uuid]. *)
Lemma check_field_spec r uuid advIndex fuel :
  0 <= advIndex <= 255 ->
  (255 <= fuel)%nat ->
  (uuid16_list_field r advIndex -> field_len r advIndex <> 0) ->
  exists v, check_field fuel r uuid advIndex 0 = Some v
    /\ (v <> 0 <-> field_has_uuid r uuid advIndex).
Proof.
  intros Hadv Hfuel Hlen. pose proof (field_len_range r advIndex) as Hr.
  unfold check_field. rewrite (uint32_small (advIndex + 1)) by lia.
  fold (field_type r advIndex).
  change (uint8 CYBLE_GAP_ADV_INCOMPL_16UUID) with 2.
  change (uint8 CYBLE_GAP_ADV_COMPL_16UUID) with 3.
  destruct ((field_type r advIndex =? 2) || (field_type r advIndex =? 3))
    eqn:Htype.
  - assert (Hlist : uuid16_list_field r advIndex).
    { unfold uuid16_list_field, CYBLE_GAP_ADV_INCOMPL_16UUID,
        CYBLE_GAP_ADV_COMPL_16UUID.
      apply orb_true_iff in Htype as [H|H]; apply Z.eqb_eq in H; auto. }
    destruct (for_uuid_spec r uuid advIndex Hadv (Hlen Hlist) fuel 0)
      as (v & Hv & Hiff); [lia|lia|].
    exists v. split; [done|]. rewrite Hiff. unfold field_has_uuid. split.
    + intros (k & Hk & Hb & Hg). split; [done|]. exists k.
      replace (advIndex + 2 + 2 * k) with (advIndex + 2 + (0 + 2 * k)) by lia.
      auto with lia.
    + intros (_ & k & Hk & Hb & Hg). exists k.
      replace (advIndex + 2 + (0 + 2 * k)) with (advIndex + 2 + 2 * k) by lia.
      auto with lia.
  - exists 0. split; [done|]. split; [done|].
    intros [[H|H] _]; apply orb_false_iff in Htype as [H2 H3];
      apply Z.eqb_neq in H2, H3; unfold CYBLE_GAP_ADV_INCOMPL_16UUID,
        CYBLE_GAP_ADV_COMPL_16UUID in H; lia.
Qed.

Lemma adv_fields_past n r off :
  uint8 (dataLen r) <= off -> adv_fields n r off = [].
Proof.
  intros H. destruct n as [|n]; [done|]. simpl.
  destruct (Z.ltb_spec off (uint8 (dataLen r))); [lia|done].
Qed.

(** From the field at [advIndex] on, the loop ends and reports whether
    one of the fields it goes through holds [uuid]. *)
Lemma do_fields_spec r uuid :
  forall n fuel advIndex,
    0 <= advIndex <= 255 ->
    (Z.to_nat (uint8 (dataLen r) - (advIndex + field_len r advIndex + 1)) <= n)%nat ->
    (n + 256 <= fuel)%nat ->
    (forall off,
        off ∈ advIndex :: adv_fields n r (advIndex + field_len r advIndex + 1) ->
        uuid16_list_field r off -> field_len r off <> 0) ->
    exists v, do_fields fuel r uuid advIndex 0 = Some v
      /\ (v <> 0 <->
          exists off,
            off ∈ advIndex :: adv_fields n r (advIndex + field_len r advIndex + 1)
            /\ field_has_uuid r uuid off).
Proof.
  induction n as [|n IH]; intros fuel advIndex Hadv Hn Hfuel Hlen;
    (destruct fuel as [|fuel]; [lia|]);
    pose proof (field_len_range r advIndex) as Hr;
    pose proof (uint8_range (dataLen r)) as Hd;
    rewrite do_fields_unfold;
    (destruct (check_field_spec r uuid advIndex (S fuel) Hadv)
       as (v & -> & Hiff); [lia| intros; apply Hlen; [left|done] |]);
    cbn zeta; rewrite advIndex_advances by done;
    set (next := advIndex + field_len r advIndex + 1) in *.
  - rewrite (proj2 (Z.ltb_ge next _)) by lia. cbn.
    exists v. split; [done|]. rewrite Hiff. split.
    + intros H. exists advIndex. split; [left|done].
    + intros (off & Hin & H). apply list_elem_of_singleton in Hin. by subst.
  - destruct (Z.eqb_spec v 0) as [->|Hv].
    + destruct (Z.ltb_spec next (uint8 (dataLen r))) as [Hlt|Hge]; cbn.
      * pose proof (field_len_range r next) as Hr'.
        destruct (IH fuel next) as (w & Hw & Hwiff);
          [lia|lia|lia| |].
        { intros off Hin. apply Hlen. right. simpl.
          rewrite (proj2 (Z.ltb_lt next _)) by lia. done. }
        exists w. split; [done|]. rewrite Hwiff.
        simpl. rewrite (proj2 (Z.ltb_lt next _)) by lia. split.
        -- intros (off & Hin & H). exists off. split; [by right|done].
        -- intros (off & Hin & H). apply elem_of_cons in Hin as [->|Hin].
           ++ apply Hiff in H. done.
           ++ by exists off.
      * exists 0. split; [done|].
        rewrite (proj2 (Z.ltb_ge next _)) by lia. split; [done|].
        intros (off & Hin & H). apply list_elem_of_singleton in Hin. subst.
        by apply Hiff in H.
    + rewrite andb_false_r. exists v. split; [done|]. split; [|done].
      intros _. exists advIndex. split; [left|]. by apply Hiff.
Qed.

(** ** The filter against the fields of the payload *)




(** An odd data length: the last value read takes its high byte from
    past the field, here the length byte of the next one. *)
Example CheckAdv_value_across_fields :
  CheckAdvPacketForServiceUuid 512
    (mk_report [1;2;3;4;5;6] 0 [2;3;32;24] 4) 6176 = Some 1
  /\ scanned_fields (mk_report [1;2;3;4;5;6] 0 [2;3;32;24] 4) = [0; 3].
Proof. split; reflexivity. Qed.

(** The same disagreement inside the declared length: a length byte of 0
    makes the loop bound 0xFFFFFFFF, and the value is found in what the
    format has as the next field. *)
Example CheckAdv_zero_length_false_match :
  CheckAdvPacketForServiceUuid 512
    (mk_report [1;2;3;4;5;6] 0 [0;3;32;24] 4) 6176 = Some 1
  /\ ~ spec_has_uuid (mk_report [1;2;3;4;5;6] 0 [0;3;32;24] 4) 6176.
Proof.
  split; [reflexivity|]. intros (off & Hin & Htype & k & Hk & Hb & _).
  change (spec_fields _) with [0; 1] in Hin.
  apply elem_of_cons in Hin as [->|Hin].
  - change (field_len _ 0) with 0 in Hb. lia.
  - apply list_elem_of_singleton in Hin as ->.
    destruct Htype as [H|H]; vm_compute in H; discriminate.
Qed.

(** The number of fields left does not depend on the bound once it
    covers the bytes left. *)
Lemma adv_fields_enough r :
  forall n m off,
    (Z.to_nat (uint8 (dataLen r) - off) <= n)%nat ->
    (Z.to_nat (uint8 (dataLen r) - off) <= m)%nat ->
    adv_fields n r off = adv_fields m r off.
Proof.
  induction n as [|n IH]; intros m off Hn Hm.
  - rewrite (adv_fields_past m) by lia. done.
  - destruct m as [|m]; [rewrite (adv_fields_past (S n)) by lia; done|].
    cbn [adv_fields]. pose proof (field_len_range r off).
    destruct (Z.ltb_spec off (uint8 (dataLen r))); [|done].
    f_equal. apply IH; lia.
Qed.

(** With a payload that is not empty the loop examines the fields of the
    report and no other. *)
Lemma scanned_fields_spec_fields r :
  0 < uint8 (dataLen r) -> scanned_fields r = spec_fields r.
Proof.
  intros H. unfold scanned_fields, spec_fields.
  pose proof (field_len_range r 0).
  destruct (Z.to_nat (uint8 (dataLen r))) as [|n] eqn:Hn; [lia|].
  transitivity (0 :: adv_fields n r (field_len r 0 + 1)).
  - f_equal. apply adv_fields_enough; lia.
  - cbn [adv_fields]. by rewrite (proj2 (Z.ltb_lt 0 _)) by lia.
Qed.

(** On a payload that is not empty and has no empty list of 16-bit UUIDs
    the filter decides what the specification says. *)
Corollary CheckAdv_spec_fields r uuid fuel :
  (512 <= fuel)%nat ->
  0 < uint8 (dataLen r) ->
  uuid_fields_nonempty r ->
  exists v, CheckAdvPacketForServiceUuid fuel r uuid = Some v
    /\ (v <> 0 <-> spec_has_uuid r uuid).
Proof.
  intros Hfuel Hd Hlen. pose proof (uint8_range (dataLen r)) as Hd'.
  pose proof (field_len_range r 0) as Hr.
  unfold spec_has_uuid. rewrite <- scanned_fields_spec_fields by done.
  apply (do_fields_spec r uuid (Z.to_nat (uint8 (dataLen r))) fuel 0);
    [lia|lia|lia|exact Hlen].
Qed.

(** ** A length byte of 0 in a list of 16-bit UUIDs *)

(** With the bound at 0xFFFFFFFF and the target nowhere behind the
    pointer, the inner loop is still running after any number of steps:
    [i] stays even, so it never reaches the bound, and wraps to 0. *)
Lemma for_uuid_endless r uuid advIndex :
  field_len r advIndex = 0 ->
  (forall j, CyBle_Get16ByPtr (data r) j <> uint16 uuid) ->
  forall fuel i, 0 <= i < 4294967296 -> i mod 2 = 0 ->
    for_uuid fuel r uuid advIndex i 0 = None.
Proof.
  intros Hlen Hno. induction fuel as [|fuel IH]; intros i Hi Heven; [done|].
  cbn [for_uuid]. fold (field_len r advIndex). rewrite Hlen.
  change (uint32 (0 - 1)) with 4294967295.
  assert (i <> 4294967295) by (intros ->; discriminate Heven).
  rewrite (proj2 (Z.ltb_lt i 4294967295)) by lia. cbn.
  rewrite (proj2 (Z.eqb_neq _ _) (Hno _)).
  apply IH; unfold uint32.
  - apply Z.mod_pos_bound. lia.
  - rewrite Z.mod_mod_divide by (exists 2147483648; reflexivity).
    rewrite <- Z.add_mod_idemp_l, Heven by lia. reflexivity.
Qed.

Lemma CheckAdv_endless r uuid :
  field_len r 0 = 0 ->
  uuid16_list_field r 0 ->
  (forall j, CyBle_Get16ByPtr (data r) j <> uint16 uuid) ->
  forall fuel, CheckAdvPacketForServiceUuid fuel r uuid = None.
Proof.
  intros Hlen Htype Hno fuel. unfold CheckAdvPacketForServiceUuid.
  destruct fuel as [|fuel]; [done|]. rewrite do_fields_unfold.
  unfold check_field. change (uint32 (0 + 1)) with (0 + 1).
  fold (field_type r 0).
  assert ((field_type r 0 =? uint8 CYBLE_GAP_ADV_INCOMPL_16UUID)
          || (field_type r 0 =? uint8 CYBLE_GAP_ADV_COMPL_16UUID) = true)
    as ->.
  { apply orb_true_iff. destruct Htype as [H|H]; rewrite H; auto. }
  by rewrite for_uuid_endless.
Qed.

Lemma Get16_bytes_0_3 j : CyBle_Get16ByPtr (bytes [0; 3]) j <> 6176.
Proof.
  assert (Hb : forall i, load8 (bytes [0; 3]) i = 0
                         \/ load8 (bytes [0; 3]) i = 3).
  { intros i. unfold load8, bytes.
    destruct (Z.to_nat i) as [|[|[|n]]]; cbn; auto. }
  unfold CyBle_Get16ByPtr.
  destruct (Hb (j + 1)) as [->| ->], (Hb j) as [->| ->]; by vm_compute.
Qed.

(** C10: the filter does not end on the two-byte payload [00 03], a
    length byte of 0 followed by the type of a complete list of 16-bit
    UUIDs; whatever the number of loop iterations granted, it has not
    returned, and neither has the scan-result handler that called it. *)
Theorem CheckAdv_zero_length_uuid_list_never_returns :
  forall fuel,
    CheckAdvPacketForServiceUuid fuel (mk_report [1;2;3;4;5;6] 0 [0; 3] 2)
      CYBLE_UUID_INTERNET_PROTOCOL_SUPPORT_SERVICE = None
    /\ forall (cfg : main_h) ble g,
        AppCallback fuel ble g
          (CYBLE_EVT_GAPC_SCAN_PROGRESS_RESULT
             (mk_report [1;2;3;4;5;6] 0 [0; 3] 2)) = None.
Proof.
  intros fuel.
  assert (H : CheckAdvPacketForServiceUuid fuel
                (mk_report [1;2;3;4;5;6] 0 [0; 3] 2)
                CYBLE_UUID_INTERNET_PROTOCOL_SUPPORT_SERVICE = None).
  { apply CheckAdv_endless; [reflexivity|by right|].
    intros j. apply Get16_bytes_0_3. }
  split; [done|]. intros cfg ble g. cbn [AppCallback]. by rewrite H.
Qed.

(** Apart from that the loop over the fields always moves on: it ends
    within [dataLen + 1] rounds whenever each check of a field ends. *)
Lemma CheckAdv_terminates r uuid :
  uuid_fields_nonempty r ->
  exists v, CheckAdvPacketForServiceUuid 512 r uuid = Some v.
Proof.
  intros Hlen. pose proof (uint8_range (dataLen r)) as Hd.
  pose proof (field_len_range r 0) as Hr.
  destruct (do_fields_spec r uuid (Z.to_nat (uint8 (dataLen r))) 512%nat 0)
    as (v & Hv & _); [lia|lia|lia|exact Hlen|].
  by exists v.
Qed.

(** ** memcmp and the bytes behind a pointer *)

Arguments read_bytes : simpl never.
Arguments memcmp : simpl never.

Lemma length_read_bytes p n : length (read_bytes p n) = n.
Proof. unfold read_bytes. by rewrite length_map, length_seq. Qed.

Lemma read_bytes_lookup p n i :
  (i < n)%nat -> read_bytes p n !! i = Some (load8 p (Z.of_nat i)).
Proof.
  intros H. unfold read_bytes.
  by rewrite list_lookup_fmap, lookup_seq_lt.
Qed.

Lemma load8_idemp p i : uint8 (load8 p i) = load8 p i.
Proof. unfold load8, uint8. apply Z.mod_mod. lia. Qed.

(** Bytes copied out of memory read back as themselves. *)
Lemma read_bytes_canonical p n :
  read_bytes (bytes (read_bytes p n)) n = read_bytes p n.
Proof.
  apply list_eq. intros i. destruct (decide (i < n)%nat) as [Hi|Hi].
  - rewrite !read_bytes_lookup by done. f_equal.
    unfold load8 at 1, bytes. rewrite Nat2Z.id, nth_lookup.
    rewrite read_bytes_lookup by done. cbn. apply load8_idemp.
  - rewrite !lookup_ge_None_2; [done| |]; rewrite length_read_bytes; lia.
Qed.

Lemma memcmp_bytes_0 a b :
  length a = length b -> memcmp_bytes a b = 0 <-> a = b.
Proof.
  revert b. induction a as [|x a IH]; intros [|y b] Hlen; try done.
  cbn. destruct (Z.eqb_spec x y) as [->|Hne].
  - rewrite IH by (cbn in Hlen; lia). split; [by intros ->|by intros [=]].
  - split; [lia|by intros [=]].
Qed.

(** [memcmp] returns 0 exactly when the [n] bytes are the same. *)
Lemma memcmp_0 p q n :
  memcmp p q n = 0 <-> read_bytes p n = read_bytes q n.
Proof.
  unfold memcmp. apply memcmp_bytes_0. by rewrite !length_read_bytes.
Qed.

Lemma logged_at_None peerBd entries i :
  logged_at peerBd entries i = None <->
  forall e, e ∈ entries ->
    read_bytes (bytes (bdAddr e)) CYBLE_GAP_BD_ADDR_SIZE
    <> read_bytes peerBd CYBLE_GAP_BD_ADDR_SIZE.
Proof.
  revert i. induction entries as [|e entries IH]; intros i; cbn [logged_at].
  - split; [|done]. intros _ e He. by apply elem_of_nil in He.
  - destruct (Z.eqb_spec (memcmp (bytes (bdAddr e)) peerBd
                            CYBLE_GAP_BD_ADDR_SIZE) 0) as [H0|H0];
      rewrite memcmp_0 in H0.
    + split; [done|]. intros H. destruct (H e); [left|done].
    + rewrite IH. split.
      * intros H e' [->|He']%elem_of_cons; auto.
      * intros H e' He'. apply H. by right.
Qed.

Lemma logged_at_Some peerBd entries i j :
  logged_at peerBd entries i = Some j ->
  exists e, e ∈ entries
    /\ read_bytes (bytes (bdAddr e)) CYBLE_GAP_BD_ADDR_SIZE
       = read_bytes peerBd CYBLE_GAP_BD_ADDR_SIZE.
Proof.
  revert i. induction entries as [|e entries IH]; intros i; cbn [logged_at];
    [done|].
  destruct (Z.eqb_spec (memcmp (bytes (bdAddr e)) peerBd
                          CYBLE_GAP_BD_ADDR_SIZE) 0) as [H0|H0].
  - intros _. exists e. split; [left|]. by apply memcmp_0.
  - intros (e' & He' & H)%IH. exists e'. split; [by right|done].
Qed.

Section RouterProofs.

Context {cfg : main_h}.

(** ** The registry under the scan-result handler *)

Lemma registry_ok_init : registry_ok init.
Proof.
  unfold registry_ok, registry, init; cbn.
  rewrite length_replicate. repeat split; try lia; constructor.
Qed.

(** An address already among the entries leaves the globals as they
    are, whatever the address kind of the report. *)
Lemma log_device_logged g r e :
  e ∈ registry g ->
  read_bytes (bytes (bdAddr e)) CYBLE_GAP_BD_ADDR_SIZE
  = read_bytes (peerBdAddr r) CYBLE_GAP_BD_ADDR_SIZE ->
  fst (log_device g r) = g.
Proof.
  intros He Heq. unfold log_device.
  destruct (logged_at (peerBdAddr r) (registry g) 0) as [i|] eqn:Hl; [done|].
  rewrite logged_at_None in Hl. by destruct (Hl e He).
Qed.

(** A full registry leaves the globals as they are. *)
Lemma log_device_full g r :
  advDevices g = Z.of_nat CYBLE_MAX_ADV_DEVICES -> fst (log_device g r) = g.
Proof.
  intros Hfull. unfold log_device.
  destruct (logged_at (peerBdAddr r) (registry g) 0); [done|].
  by rewrite (proj2 (Z.ltb_ge _ _)) by lia.
Qed.

(** Entries below the count are never written. *)
Lemma log_device_keeps g r i :
  (i < Z.to_nat (advDevices g))%nat ->
  peerAddr (fst (log_device g r)) !! i = peerAddr g !! i.
Proof.
  intros Hi. unfold log_device.
  destruct (logged_at (peerBdAddr r) (registry g) 0); [done|].
  destruct (advDevices g <? Z.of_nat CYBLE_MAX_ADV_DEVICES); [|done].
  cbn. apply list_lookup_insert_ne. lia.
Qed.

Lemma log_device_ok g r : registry_ok g -> registry_ok (fst (log_device g r)).
Proof.
  intros (Hlen & Hn & Hu8 & Hnd & Hcan). unfold log_device.
  destruct (logged_at (peerBdAddr r) (registry g) 0) as [i|] eqn:Hl;
    [done|].
  destruct (Z.ltb_spec (advDevices g) (Z.of_nat CYBLE_MAX_ADV_DEVICES))
    as [Hlt|Hge]; [|done].
  rewrite logged_at_None in Hl.
  set (entry := {| bdAddr := read_bytes (peerBdAddr r) CYBLE_GAP_BD_ADDR_SIZE;
                   type := uint8 (peerAddrType r) |}).
  unfold registry_ok, registry in *. cbn.
  rewrite length_insert. split; [done|].
  pose proof (uint8_range (advDevices g + 1)) as Hu.
  destruct (Z.ltb_spec (advDevices g + 1) 256) as [Hsmall|Hwrap].
  - assert (Hcast : uint8 (advDevices g + 1) = advDevices g + 1)
      by (unfold uint8; apply Z.mod_small; lia).
    rewrite Hcast. split; [lia|]. split; [lia|].
    replace (Z.to_nat (advDevices g + 1)) with (S (Z.to_nat (advDevices g)))
      by lia.
    rewrite (take_S_r _ _ entry) by (apply list_lookup_insert_eq; lia).
    rewrite take_insert_ge by done. split.
    + rewrite fmap_app. apply NoDup_app. split; [done|]. split.
      * intros a (e & -> & He)%list_elem_of_fmap Ha.
        apply list_elem_of_singleton in Ha. cbn in Ha.
        apply (Hl e He). rewrite <- Ha.
        by rewrite (proj1 (Forall_forall _ _) Hcan e He).
      * apply NoDup_singleton.
    + apply Forall_app. split; [done|]. apply Forall_singleton.
      apply read_bytes_canonical.
  - assert (Hcast : uint8 (advDevices g + 1) = 0).
    { replace (advDevices g + 1) with 256 by lia. reflexivity. }
    rewrite Hcast. cbn. repeat split; try lia; constructor.
Qed.

Lemma registry_ok_ext g g' :
  peerAddr g' = peerAddr g -> advDevices g' = advDevices g ->
  registry_ok g -> registry_ok g'.
Proof. unfold registry_ok, registry. by intros -> ->. Qed.

Lemma send_loopback_registry ble g :
  peerAddr (fst (send_loopback ble g)) = peerAddr g
  /\ advDevices (fst (send_loopback ble g)) = advDevices g.
Proof. done. Qed.

Lemma run_command_registry ble g command digit :
  peerAddr (fst (run_command ble g command digit)) = peerAddr g
  /\ advDevices (fst (run_command ble g command digit)) = advDevices g.
Proof. unfold run_command. repeat case_match; done. Qed.

Lemma main_poll_registry ble g uart digit :
  peerAddr (fst (main_poll ble g uart digit)) = peerAddr g
  /\ advDevices (fst (main_poll ble g uart digit)) = advDevices g.
Proof.
  unfold main_poll.
  destruct (negb (uint8 uart =? 0)
            || negb (custom_command g =? 0) && (cyBle_busyStatus ble =? 0));
    [|done].
  destruct (negb (custom_command g =? 0)).
  - pose proof (run_command_registry ble (set_custom_command g 0)
                  (custom_command g) digit) as H.
    by destruct (run_command _ _ _ _).
  - pose proof (run_command_registry ble g (uint8 uart) digit) as H.
    by destruct (run_command _ _ _ _).
Qed.

(** Only an accepted sighting touches the registry. *)
Lemma step_registry fuel g i g' out :
  step fuel g i = Some (g', out) ->
  (peerAddr g' = peerAddr g /\ advDevices g' = advDevices g)
  \/ exists ble r, i = Event ble (CYBLE_EVT_GAPC_SCAN_PROGRESS_RESULT r)
       /\ g' = fst (log_device g r).
Proof.
  destruct i as [ble event|ble uart digit]; cbn [step].
  - destruct event; cbn [AppCallback]; try (intros [= <- <-]; by left).
    + destruct (CheckAdvPacketForServiceUuid _ _ _) as [present|]; [|done].
      destruct (present =? 0); [intros [= <- <-]; by left|].
      intros [= H]. right. exists ble, advReport. by rewrite H.
    + destruct (CyBle_GetState ble); try destruct (state g);
        intros [= <- <-]; by left.
    + destruct (_ =? _); intros [= <- <-]; by left.
  - intros [= H]. left.
    replace g' with (fst (main_poll ble g uart digit)) by (by rewrite H).
    apply main_poll_registry.
Qed.

Lemma step_registry_ok fuel g i g' out :
  registry_ok g -> step fuel g i = Some (g', out) -> registry_ok g'.
Proof.
  intros Hok [[Hp Ha]|(ble & r & _ & ->)]%step_registry.
  - by apply (registry_ok_ext g).
  - by apply log_device_ok.
Qed.

Lemma run_registry_ok fuel inputs :
  forall g g' out,
    registry_ok g -> run fuel g inputs = Some (g', out) -> registry_ok g'.
Proof.
  induction inputs as [|i inputs IH]; intros g g' out Hok; cbn [run].
  - by intros [= <- _].
  - destruct (step fuel g i) as [[g1 out1]|] eqn:Hstep; [|done].
    destruct (run fuel g1 inputs) as [[g2 out2]|] eqn:Hrun; [|done].
    intros [= <- _]. eapply IH; [|done]. by eapply step_registry_ok.
Qed.

(** C4: after any sequence of events and main-loop passes from the
    initial globals, sightings among them, no two registered entries have
    the same address, the count [advDevices] is at most
    [CYBLE_MAX_ADV_DEVICES], and when it has reached that capacity the
    scan-result handler leaves the globals as they are: the sighting is
    not added. *)
Theorem registry_unique_and_bounded fuel inputs g out :
  run fuel init inputs = Some (g, out) ->
  NoDup (bdAddr <$> registry g)
  /\ 0 <= advDevices g <= Z.of_nat CYBLE_MAX_ADV_DEVICES
  /\ (length (registry g) <= CYBLE_MAX_ADV_DEVICES)%nat
  /\ (advDevices g = Z.of_nat CYBLE_MAX_ADV_DEVICES ->
      forall fuel' ble r g' out',
        AppCallback fuel' ble g (CYBLE_EVT_GAPC_SCAN_PROGRESS_RESULT r)
        = Some (g', out') -> g' = g).
Proof.
  intros Hrun.
  destruct (run_registry_ok fuel inputs init g out registry_ok_init Hrun)
    as (Hlen & Hn & Hu8 & Hnd & Hcan).
  split; [done|]. split; [done|]. split.
  - unfold registry. rewrite length_take. lia.
  - intros Hfull fuel' ble r g' out'. cbn [AppCallback].
    destruct (CheckAdvPacketForServiceUuid _ _ _) as [present|]; [|done].
    destruct (present =? 0); [by intros [= <- _]|].
    intros [= H]. rewrite <- (log_device_full g r Hfull). by rewrite H.
Qed.

(** C9: an accepted sighting whose six address bytes equal those of a
    registered entry leaves the globals as they are, whatever address
    kind it carries, and no input ever changes an entry below the count:
    the kind stored with an address stays the one of its first
    sighting. *)
Theorem duplicate_ignores_address_kind fuel g i g' out :
  step fuel g i = Some (g', out) ->
  (forall k, (k < Z.to_nat (advDevices g))%nat ->
     peerAddr g' !! k = peerAddr g !! k)
  /\ (forall ble r e,
        i = Event ble (CYBLE_EVT_GAPC_SCAN_PROGRESS_RESULT r) ->
        e ∈ registry g ->
        read_bytes (bytes (bdAddr e)) CYBLE_GAP_BD_ADDR_SIZE
        = read_bytes (peerBdAddr r) CYBLE_GAP_BD_ADDR_SIZE ->
        g' = g).
Proof.
  intros Hstep. split.
  - intros k Hk.
    destruct (step_registry _ _ _ _ _ Hstep) as [[-> _]|(ble & r & _ & ->)];
      [done|].
    by apply log_device_keeps.
  - intros ble r e -> He Heq. cbn [step AppCallback] in Hstep.
    destruct (CheckAdvPacketForServiceUuid _ _ _) as [present|]; [|done].
    destruct (present =? 0); injection Hstep as Hstep; [congruence|].
    rewrite <- (log_device_logged g r e He Heq). by rewrite Hstep.
Qed.


(** ** The calls of each handler *)

Lemma calls_app a b : calls (a ++ b) = calls a ++ calls b.
Proof. apply omap_app. Qed.

Lemma calls_nil : calls [] = [].
Proof. reflexivity. Qed.

Lemma calls_cons_call c out : calls (Call c :: out) = c :: calls out.
Proof. reflexivity. Qed.

Lemma calls_cons_dbg fmt args out :
  calls (DBG_PRINTF fmt args :: out) = calls out.
Proof. reflexivity. Qed.

Lemma calls_dbg_bytes fmt (l : list Z) :
  calls (map (fun b => DBG_PRINTF fmt [b]) l) = [].
Proof. by induction l. Qed.

Create Rewrite HintDb calls_db.
#[local] Hint Rewrite calls_app calls_nil calls_cons_call calls_cons_dbg
  calls_dbg_bytes : calls_db.

Ltac calls_of_output :=
  repeat match goal with
         | |- context [if ?b then _ else _] => destruct b
         end;
  autorewrite with calls_db; try done.

Lemma log_device_calls g r : calls (snd (log_device g r)) = [].
Proof.
  unfold log_device.
  destruct (logged_at _ _ _); [done|]. by destruct (_ <? _).
Qed.

Lemma AppCallback_calls fuel ble g event g' out :
  AppCallback fuel ble g event = Some (g', out) ->
  calls out = event_calls ble g event.
Proof.
  destruct event; cbn [AppCallback event_calls].
  - intros [= _ <-]. calls_of_output.
  - destruct (CheckAdvPacketForServiceUuid _ _ _) as [present|]; [|done].
    destruct (present =? 0); [by intros [= _ <-]|].
    intros [= H]. rewrite <- (log_device_calls g advReport). by rewrite H.
  - destruct (CyBle_GetState ble); try destruct (state g);
      intros [= _ <-]; calls_of_output.
  - by intros [= _ <-].
  - by intros [= _ <-].
  - intros [= _ <-]. calls_of_output.
  - intros [= _ <-]. calls_of_output.
  - by intros [= _ <-].
  - by intros [= _ <-].
  - destruct (_ =? _); by intros [= _ <-].
  - intros [= _ <-]. calls_of_output.
  - by intros [= _ <-].
  - by intros [= _ <-].
Qed.

Lemma send_loopback_calls ble g :
  calls (snd (send_loopback ble g))
  = [CyBle_L2capChannelDataWrite (snd (cyBle_connHandle ble))
       (lCid (l2capParameters g)) (next_payload g)].
Proof.
  unfold send_loopback. cbn [snd]. calls_of_output.
Qed.

(** What is written is what the loopback buffer holds afterwards. *)
Lemma send_loopback_buffer ble g :
  next_payload g
  = read_bytes (word_bytes (ipv6LoopbackBuffer (fst (send_loopback ble g))))
      L2CAP_MAX_LEN.
Proof. reflexivity. Qed.

Lemma run_command_calls ble g command digit :
  calls (snd (run_command ble g command digit)) = command_calls ble g command.
Proof.
  unfold run_command, command_calls.
  destruct (command =? 99); [done|].
  destruct (command =? 118); [done|].
  destruct (command =? 100); [cbn [snd]; calls_of_output|].
  destruct (command =? 115); [cbn [snd]; calls_of_output|].
  destruct (command =? 122); [by destruct (_ && _)|].
  destruct (command =? 49); [apply send_loopback_calls|].
  by destruct (command =? 104).
Qed.

Lemma run_command_custom_command ble g command digit :
  custom_command (fst (run_command ble g command digit)) = custom_command g.
Proof.
  unfold run_command.
  destruct (command =? 99); [done|].
  destruct (command =? 118); [done|].
  destruct (command =? 100); [done|].
  destruct (command =? 115); [done|].
  destruct (command =? 122); [by destruct (_ && _)|].
  destruct (command =? 49); [done|].
  by destruct (command =? 104).
Qed.


(** A pass of the main loop with a command left by a handler, once the
    component is not busy or a character arrives: the command runs. *)
Lemma main_poll_custom ble g uart digit :
  custom_command g <> 0 ->
  uint8 uart <> 0 \/ cyBle_busyStatus ble = 0 ->
  main_poll ble g uart digit
  = (fst (run_command ble (set_custom_command g 0) (custom_command g) digit),
     snd (run_command ble (set_custom_command g 0) (custom_command g) digit)
     ++ (if negb (cyBle_pendingFlashWrite ble =? 0)
            && (UART_DEB_tx_pending ble =? 0)
         then [Call CyBle_StoreBondingData;
               DBG_PRINTF "Store bonding data, status: %x \r\n"
                 [apiResult ble CyBle_StoreBondingData]]
         else [])).
Proof.
  intros Hc Hgo. unfold main_poll.
  rewrite (proj2 (Z.eqb_neq (custom_command g) 0) Hc). cbn [negb andb].
  assert (negb (uint8 uart =? 0) || (cyBle_busyStatus ble =? 0) = true) as ->.
  { apply orb_true_iff. destruct Hgo as [H|H].
    - left. by rewrite (proj2 (Z.eqb_neq _ _) H).
    - right. by apply Z.eqb_eq. }
  by destruct (run_command _ _ _ _).
Qed.

Lemma main_poll_calls_cases ble g uart digit :
  exists command g0,
    calls (snd (main_poll ble g uart digit)) = []
    \/ calls (snd (main_poll ble g uart digit)) = [CyBle_StoreBondingData]
    \/ calls (snd (main_poll ble g uart digit)) = command_calls ble g0 command
    \/ calls (snd (main_poll ble g uart digit))
       = command_calls ble g0 command ++ [CyBle_StoreBondingData].
Proof.
  unfold main_poll.
  destruct (negb (uint8 uart =? 0)
            || negb (custom_command g =? 0) && (cyBle_busyStatus ble =? 0)).
  - destruct (negb (custom_command g =? 0)).
    + exists (custom_command g), (set_custom_command g 0).
      pose proof (run_command_calls ble (set_custom_command g 0)
                    (custom_command g) digit) as H.
      destruct (run_command _ _ _ _) as [g1 out1]. cbn [snd] in *.
      rewrite calls_app, H. destruct (_ && _); cbn; rewrite ?app_nil_r; auto.
    + exists (uint8 uart), g.
      pose proof (run_command_calls ble g (uint8 uart) digit) as H.
      destruct (run_command _ _ _ _) as [g1 out1]. cbn [snd] in *.
      rewrite calls_app, H. destruct (_ && _); cbn; rewrite ?app_nil_r; auto.
  - exists 0, g. destruct (_ && _); cbn; auto.
Qed.

Lemma command_calls_no_grant_no_connect ble g command :
  omap (fun c =>
          match c with
          | CyBle_L2capCbfcSendFlowControlCredit cid n => Some (cid, n)
          | _ => None
          end) (command_calls ble g command) = []
  /\ omap (fun c =>
             match c with CyBle_GapcConnectDevice a => Some a | _ => None end)
          (command_calls ble g command) = [].
Proof. unfold command_calls. repeat (destruct (_ =? _); [done|]). done. Qed.

Lemma main_poll_no_grant_no_connect ble g uart digit :
  grants (snd (main_poll ble g uart digit)) = []
  /\ connects (snd (main_poll ble g uart digit)) = [].
Proof.
  unfold grants, connects.
  destruct (main_poll_calls_cases ble g uart digit)
    as (command & g0 & [-> | [-> | [-> | ->]]]); try done;
    rewrite ?omap_app;
    destruct (command_calls_no_grant_no_connect ble g0 command) as [-> ->];
    done.
Qed.

(** ** The channel: open request, confirmation, credits *)

(** C8: the handler of the link-connected event sends, on its own, one
    channel-open request for the IPSP multiplexer, and the request carries
    three local parameters: the MTU, the MPS and the credits first given
    to the peer. *)
Theorem connect_ind_opens_channel fuel ble g :
  exists out,
    AppCallback fuel ble g CYBLE_EVT_GATT_CONNECT_IND = Some (g, out)
    /\ calls out
       = [CyBle_L2capCbfcConnectReq (snd (cyBle_connHandle ble))
            CYBLE_L2CAP_PSM_LE_PSM_IPSP CYBLE_L2CAP_PSM_LE_PSM_IPSP
            {| mtu := CYBLE_L2CAP_MTU; mps := CYBLE_L2CAP_MPS;
               credit := LE_DATA_CREDITS_IPSP |}].
Proof.
  eexists. split; [reflexivity|]. calls_of_output.
Qed.

(** C2, as amended: whatever response the confirmation carries, the
    handler keeps its parameters, prints the response with them, sets
    [l2capConnected] and calls nothing, so it closes no channel. *)
Theorem conn_cnf_marks_connected fuel ble g p :
  exists g' out,
    AppCallback fuel ble g (CYBLE_EVT_L2CAP_CBFC_CONN_CNF p) = Some (g', out)
    /\ l2capConnected g' = true
    /\ l2capParameters g' = p
    /\ calls out = []
    /\ DBG_PRINTF
         "CYBLE_EVT_L2CAP_CBFC_CONN_CNF: bdHandle=%d, lCid=%d, responce=%d"
         [bdHandle p; lCid p; response p] ∈ out.
Proof.
  eexists _, _. split; [reflexivity|]. repeat split. by left.
Qed.

Lemma step_grants fuel g i g' out :
  step fuel g i = Some (g', out) ->
  grants out
  = (fun cid => (cid, LE_DATA_CREDITS_IPSP)) <$> low_credit_indications [i].
Proof.
  destruct i as [ble event|ble uart digit]; cbn [step].
  - intros H. unfold grants. rewrite (AppCallback_calls _ _ _ _ _ _ H).
    destruct event; try done. cbn.
    by destruct (CyBle_GetState ble), (state g).
  - intros [= H]. replace out with (snd (main_poll ble g uart digit))
      by (by rewrite H).
    apply main_poll_no_grant_no_connect.
Qed.

Lemma grants_app a b : grants (a ++ b) = grants a ++ grants b.
Proof. unfold grants. by rewrite calls_app, omap_app. Qed.

Lemma run_grants fuel inputs :
  forall g g' out,
    run fuel g inputs = Some (g', out) ->
    grants out
    = (fun cid => (cid, LE_DATA_CREDITS_IPSP)) <$> low_credit_indications inputs.
Proof.
  induction inputs as [|i inputs IH]; intros g g' out; cbn [run].
  - by intros [= _ <-].
  - destruct (step fuel g i) as [[g1 out1]|] eqn:Hstep; [|done].
    destruct (run fuel g1 inputs) as [[g2 out2]|] eqn:Hrun; [|done].
    intros [= _ <-]. rewrite grants_app, (step_grants _ _ _ _ _ Hstep),
      (IH _ _ _ Hrun).
    change (i :: inputs) with ([i] ++ inputs).
    unfold low_credit_indications. by rewrite omap_app, fmap_app.
Qed.

(** C3: over any sequence of events and main-loop passes, the credit
    grants sent to the peer are, in order, one grant of
    [LE_DATA_CREDITS_IPSP] credits for each low-receive-credit indication
    ([CYBLE_EVT_L2CAP_CBFC_RX_CREDIT_IND]) on the channel it names, and
    nothing else: no grant without the indication.  The mark at which the
    component raises the indication is the one the stack-on handler
    registers, [LE_WATER_MARK_IPSP]. *)
Theorem credit_grant_per_indication fuel g inputs g' out :
  run fuel g inputs = Some (g', out) ->
  grants out
  = (fun cid => (cid, LE_DATA_CREDITS_IPSP)) <$> low_credit_indications inputs
  /\ forall ble g0,
       exists out0,
         AppCallback fuel ble g0 CYBLE_EVT_STACK_ON = Some (g0, out0)
         /\ head (calls out0)
            = Some (CyBle_L2capCbfcRegisterPsm CYBLE_L2CAP_PSM_LE_PSM_IPSP
                      LE_WATER_MARK_IPSP).
Proof.
  intros Hrun. split; [by apply (run_grants fuel inputs g g')|].
  intros ble g0. eexists. split; [reflexivity|]. calls_of_output.
Qed.

(** ** Connection lifecycle *)

(** C6: a disconnect event finds the link [Disconnected], and its handler
    asks for a new scan in the same dispatch, whatever the globals hold
    and with no command involved; once the component accepts the request
    the link is [Scanning]. *)
Theorem disconnect_restarts_scan fuel ble g reason :
  apiResult ble (CyBle_GapcStartScan CYBLE_SCANNING_FAST) = CYBLE_ERROR_OK ->
  exists out,
    AppCallback fuel ble g (CYBLE_EVT_GAP_DEVICE_DISCONNECTED reason)
    = Some (g, out)
    /\ calls out = [CyBle_GapcStartScan CYBLE_SCANNING_FAST]
    /\ link_on_event Connected (CYBLE_EVT_GAP_DEVICE_DISCONNECTED reason)
       = Disconnected
    /\ link_after ble Connected (CYBLE_EVT_GAP_DEVICE_DISCONNECTED reason) out
       = Scanning.
Proof.
  intros Hok. eexists. split; [reflexivity|].
  unfold link_after. cbn. rewrite Hok. cbn. done.
Qed.

(** A scan request the component turns down is only reported: the link
    stays [Disconnected]. *)
Lemma disconnect_scan_rejected fuel ble g reason :
  apiResult ble (CyBle_GapcStartScan CYBLE_SCANNING_FAST) <> CYBLE_ERROR_OK ->
  exists out,
    AppCallback fuel ble g (CYBLE_EVT_GAP_DEVICE_DISCONNECTED reason)
    = Some (g, out)
    /\ calls out = [CyBle_GapcStartScan CYBLE_SCANNING_FAST]
    /\ link_after ble Connected (CYBLE_EVT_GAP_DEVICE_DISCONNECTED reason) out
       = Disconnected.
Proof.
  intros Hno. apply Z.eqb_neq in Hno. eexists. split; [reflexivity|].
  unfold link_after. cbn. rewrite ?Hno. cbn. by rewrite ?Hno.
Qed.

Lemma step_connects fuel g i g' out :
  step fuel g i = Some (g', out) ->
  connects out
  = match i with
    | Event ble CYBLE_EVT_GAPC_SCAN_START_STOP =>
        match CyBle_GetState ble, state g with
        | CYBLE_STATE_DISCONNECTED, STATE_CONNECTING =>
            [peerAddr g !! Z.to_nat (deviceN g)]
        | _, _ => []
        end
    | _ => []
    end.
Proof.
  destruct i as [ble event|ble uart digit]; cbn [step].
  - intros H. unfold connects. rewrite (AppCallback_calls _ _ _ _ _ _ H).
    destruct event; try done. cbn.
    by destruct (CyBle_GetState ble), (state g).
  - intros [= H]. replace out with (snd (main_poll ble g uart digit))
      by (by rewrite H).
    apply main_poll_no_grant_no_connect.
Qed.

(** C7: the connect command only asks for the scan to stop and records
    [STATE_CONNECTING]; a step that calls [CyBle_GapcConnectDevice] is the
    dispatch of the scan start/stop event with the component out of
    scanning ([CYBLE_STATE_DISCONNECTED]) and the globals in
    [STATE_CONNECTING], and the peer it connects to is the registry entry
    at index [deviceN]. *)
Theorem connect_after_scan_stopped fuel g i g' out a :
  step fuel g i = Some (g', out) ->
  a ∈ connects out ->
  (exists ble,
      i = Event ble CYBLE_EVT_GAPC_SCAN_START_STOP
      /\ CyBle_GetState ble = CYBLE_STATE_DISCONNECTED
      /\ CyBle_GetState ble <> CYBLE_STATE_SCANNING
      /\ state g = STATE_CONNECTING
      /\ a = peerAddr g !! Z.to_nat (deviceN g))
  /\ forall ble g0 digit,
       run_command ble g0 99 digit
       = (set_state g0 STATE_CONNECTING, [Call CyBle_GapcStopScan]).
Proof.
  intros Hstep Ha. split; [|done].
  rewrite (step_connects _ _ _ _ _ Hstep) in Ha.
  destruct i as [ble event|ble uart digit]; [|by apply elem_of_nil in Ha].
  destruct event; try by apply elem_of_nil in Ha.
  destruct (CyBle_GetState ble) eqn:Hst; try by apply elem_of_nil in Ha.
  destruct (state g) eqn:Hg; [by apply elem_of_nil in Ha|].
  apply list_elem_of_singleton in Ha. exists ble. by rewrite Hst.
Qed.

(** ** The transfer loop *)

Lemma writes_app a b : writes (a ++ b) = writes a ++ writes b.
Proof. unfold writes. by rewrite calls_app, omap_app. Qed.

Lemma AppCallback_writes fuel ble g event g' out :
  AppCallback fuel ble g event = Some (g', out) -> writes out = [].
Proof.
  intros H. unfold writes. rewrite (AppCallback_calls _ _ _ _ _ _ H).
  destruct event; try done. cbn.
  by destruct (CyBle_GetState ble), (state g).
Qed.


(** Only the handler of a delivered payload sets [custom_command]. *)
Lemma AppCallback_custom_command fuel ble g event g' out :
  AppCallback fuel ble g event = Some (g', out) ->
  (forall p, event <> CYBLE_EVT_L2CAP_CBFC_DATA_READ p) ->
  custom_command g' = custom_command g.
Proof.
  destruct event; cbn [AppCallback]; try by intros [= <- _].
  - destruct (CheckAdvPacketForServiceUuid _ _ _) as [present|]; [|done].
    destruct (present =? 0); [by intros [= <- _]|]. intros [= H] _.
    replace g' with (fst (log_device g advReport)) by (by rewrite H).
    unfold log_device. destruct (logged_at _ _ _); [done|].
    by destruct (_ <? _).
  - destruct (CyBle_GetState ble); try destruct (state g);
      by intros [= <- _].
  - intros _ H. by destruct (H p).
Qed.












End RouterProofs.


(** ** The registry on concrete sightings *)

Example four_sightings_registry :
  (registry ∘ fst) <$> run (cfg:=small_config) 512 (init (cfg:=small_config)) four_sightings
  = Some [ {| bdAddr := [1;2;3;4;5;6]; type := 0 |};
           {| bdAddr := [7;7;7;7;7;7]; type := 1 |} ].
Proof. reflexivity. Qed.

Lemma registry_unique_and_bounded_witness :
  exists g out,
    run (cfg:=small_config) 512 (init (cfg:=small_config)) four_sightings = Some (g, out)
    /\ advDevices g = 2
    /\ NoDup (bdAddr <$> registry g)
    /\ 0 <= advDevices g <= 2
    /\ (length (registry g) <= 2)%nat
    /\ (advDevices g = 2 ->
        forall fuel' ble r g' out',
          AppCallback (cfg:=small_config) fuel' ble g
            (CYBLE_EVT_GAPC_SCAN_PROGRESS_RESULT r) = Some (g', out') ->
          g' = g).
Proof.
  eexists _, _. split; [reflexivity|]. split; [reflexivity|].
  eapply (registry_unique_and_bounded (cfg:=small_config) 512 four_sightings).
  reflexivity.
Defined.

(** The address registered as public is sighted again as random (kind
    1): nothing changes, the entry keeps kind 0. *)
Example one_entry_reached :
  fst <$> run (cfg:=small_config) 512 (init (cfg:=small_config))
            (sightings [ipss_report [1;2;3;4;5;6] 0]
               (quiet_stack CYBLE_STATE_SCANNING))
  = Some one_entry.
Proof. reflexivity. Qed.

Lemma duplicate_ignores_address_kind_witness :
  exists out,
    step (cfg:=small_config) 512 one_entry
      (Event (quiet_stack CYBLE_STATE_SCANNING)
         (CYBLE_EVT_GAPC_SCAN_PROGRESS_RESULT (ipss_report [1;2;3;4;5;6] 1)))
    = Some (one_entry, out)
    /\ (forall k, (k < 1)%nat -> peerAddr one_entry !! k = peerAddr one_entry !! k)
    /\ type <$> (registry one_entry !! 0%nat) = Some 0.
Proof.
  eexists. split; [reflexivity|].
  destruct (duplicate_ignores_address_kind (cfg:=small_config) 512 one_entry
              (Event (quiet_stack CYBLE_STATE_SCANNING)
                 (CYBLE_EVT_GAPC_SCAN_PROGRESS_RESULT
                    (ipss_report [1;2;3;4;5;6] 1)))
              one_entry _ eq_refl) as [Hkeep Hdup].
  split; [exact Hkeep|reflexivity].
Defined.

(** ** The channel and the transfer loop on concrete inputs *)

(** C2, as stated, fails: the confirmation carries response 2, and the
    handler sets [l2capConnected] all the same and calls nothing that
    would close the channel. *)
Lemma conn_cnf_error_counterexample :
  response refused <> 0
  /\ exists g out,
       AppCallback (cfg:=small_config) 0 (quiet_stack CYBLE_STATE_CONNECTED)
         (init (cfg:=small_config)) (CYBLE_EVT_L2CAP_CBFC_CONN_CNF refused)
       = Some (g, out)
       /\ l2capConnected g = true
       /\ calls out = [].
Proof.
  split; [done|]. eexists _, _. split; [reflexivity|]. by split.
Qed.

Example two_indications_grants :
  (grants ∘ snd) <$> run (cfg:=small_config) 512 (init (cfg:=small_config))
                       two_indications
  = Some [(64, 1000); (64, 1000)].
Proof. reflexivity. Qed.

Lemma credit_grant_per_indication_witness :
  exists g out,
    run (cfg:=small_config) 512 (init (cfg:=small_config)) two_indications
    = Some (g, out)
    /\ grants out = [(64, 1000); (64, 1000)]
    /\ forall ble g0,
         exists out0,
           AppCallback (cfg:=small_config) 512 ble g0 CYBLE_EVT_STACK_ON
           = Some (g0, out0)
           /\ head (calls out0) = Some (CyBle_L2capCbfcRegisterPsm 35 10).
Proof.
  eexists _, _. split; [reflexivity|].
  eapply (credit_grant_per_indication (cfg:=small_config) 512
            (init (cfg:=small_config)) two_indications).
  reflexivity.
Defined.

Lemma disconnect_restarts_scan_witness :
  exists out,
    AppCallback (cfg:=small_config) 0 (quiet_stack CYBLE_STATE_DISCONNECTED)
      one_entry (CYBLE_EVT_GAP_DEVICE_DISCONNECTED 19)
    = Some (one_entry, out)
    /\ calls out = [CyBle_GapcStartScan 0]
    /\ link_on_event Connected (CYBLE_EVT_GAP_DEVICE_DISCONNECTED 19)
       = Disconnected
    /\ link_after (quiet_stack CYBLE_STATE_DISCONNECTED) Connected
         (CYBLE_EVT_GAP_DEVICE_DISCONNECTED 19) out = Scanning.
Proof.
  apply (disconnect_restarts_scan (cfg:=small_config) 0
           (quiet_stack CYBLE_STATE_DISCONNECTED) one_entry 19).
  reflexivity.
Defined.

Example command_c_then_stop_scan :
  (fun r => (state (fst r), connects (snd r)))
    <$> run (cfg:=small_config) 512 one_entry
          [ Poll (quiet_stack CYBLE_STATE_SCANNING) 99 0;
            Event (quiet_stack CYBLE_STATE_SCANNING)
              CYBLE_EVT_GAPC_SCAN_START_STOP;
            Event (quiet_stack CYBLE_STATE_DISCONNECTED)
              CYBLE_EVT_GAPC_SCAN_START_STOP ]
  = Some (STATE_CONNECTING,
          [Some {| bdAddr := [1;2;3;4;5;6]; type := 0 |}]).
Proof. reflexivity. Qed.

Lemma connect_after_scan_stopped_witness :
  (exists ble,
      Event (quiet_stack CYBLE_STATE_DISCONNECTED)
        CYBLE_EVT_GAPC_SCAN_START_STOP
      = Event ble CYBLE_EVT_GAPC_SCAN_START_STOP
      /\ CyBle_GetState ble = CYBLE_STATE_DISCONNECTED
      /\ CyBle_GetState ble <> CYBLE_STATE_SCANNING
      /\ state one_entry_connecting = STATE_CONNECTING
      /\ Some {| bdAddr := [1;2;3;4;5;6]; type := 0 |}
         = peerAddr one_entry_connecting
             !! Z.to_nat (deviceN one_entry_connecting))
  /\ forall ble g0 digit,
       run_command (cfg:=small_config) ble g0 99 digit
       = (set_state g0 STATE_CONNECTING, [Call CyBle_GapcStopScan]).
Proof.
  eapply (connect_after_scan_stopped (cfg:=small_config) 512
            one_entry_connecting
            (Event (quiet_stack CYBLE_STATE_DISCONNECTED)
               CYBLE_EVT_GAPC_SCAN_START_STOP)).
  - reflexivity.
  - vm_compute. left.
Defined.

Example first_send_payload :
  (writes ∘ snd) <$> run (cfg:=small_config) 512 (init (cfg:=small_config))
                       first_send
  = Some [[0; 0; 1; 0]].
Proof. reflexivity. Qed.

(** The echo of the payload sets off the next send, a changed byte does
    not. *)
Example echo_triggers_next_send :
  (fun r => (custom_command (fst r), writes (snd r)))
    <$> run (cfg:=small_config) 512 (init (cfg:=small_config))
          (first_send
           ++ [ Event (quiet_stack CYBLE_STATE_CONNECTED)
                  (CYBLE_EVT_L2CAP_CBFC_DATA_READ (delivered [0; 0; 1; 0]));
                Poll (quiet_stack CYBLE_STATE_CONNECTED) 0 0 ])
  = Some (0, [[0; 0; 1; 0]; [2; 0; 3; 0]]).
Proof. reflexivity. Qed.

Example changed_byte_halts :
  (fun r => (custom_command (fst r), writes (snd r), last (snd r)))
    <$> run (cfg:=small_config) 512 (init (cfg:=small_config))
          (first_send
           ++ [ Event (quiet_stack CYBLE_STATE_CONNECTED)
                  (CYBLE_EVT_L2CAP_CBFC_DATA_READ (delivered [0; 0; 1; 1])) ])
  = Some (0, [[0; 0; 1; 0]], Some wrap_failed).
Proof. reflexivity. Qed.



(** ** More on the filter *)

Lemma for_uuid_0_or_1 fuel r uuid advIndex :
  forall i servicePresent v,
    servicePresent = 0 \/ servicePresent = 1 ->
    for_uuid fuel r uuid advIndex i servicePresent = Some v ->
    v = 0 \/ v = 1.
Proof.
  induction fuel as [|fuel IH]; intros i sp v Hsp; cbn [for_uuid]; [done|].
  destruct (_ && _).
  - apply IH. destruct (_ =? _); auto.
  - by intros [= <-].
Qed.

Lemma do_fields_0_or_1 fuel r uuid :
  forall advIndex servicePresent v,
    servicePresent = 0 \/ servicePresent = 1 ->
    do_fields fuel r uuid advIndex servicePresent = Some v ->
    v = 0 \/ v = 1.
Proof.
  induction fuel as [|fuel IH]; intros advIndex sp v Hsp; [done|].
  rewrite do_fields_unfold.
  destruct (check_field (S fuel) r uuid advIndex sp) as [sp'|] eqn:Hc;
    [|done].
  assert (Hsp' : sp' = 0 \/ sp' = 1).
  { unfold check_field in Hc. destruct (_ || _).
    - by apply (for_uuid_0_or_1 _ _ _ _ _ _ _ Hsp Hc).
    - by injection Hc as <-. }
  cbn zeta. destruct (_ && _).
  - by apply IH.
  - by intros [= <-].
Qed.

(** X1: whenever the filter returns, it returns 0 or 1. *)
Theorem CheckAdv_result_0_or_1 fuel r uuid v :
  CheckAdvPacketForServiceUuid fuel r uuid = Some v -> v = 0 \/ v = 1.
Proof.
  unfold CheckAdvPacketForServiceUuid. apply do_fields_0_or_1. by left.
Qed.

Lemma CheckAdv_result_0_or_1_witness : (1 : Z) = 0 \/ (1 : Z) = 1.
Proof.
  apply (CheckAdv_result_0_or_1 512 (ipss_report [1;2;3;4;5;6] 0) 6176 1).
  reflexivity.
Defined.


Lemma adv_fields_bounds r :
  forall n off x, 0 <= off -> x ∈ adv_fields n r off ->
    off <= x < uint8 (dataLen r).
Proof.
  induction n as [|n IH]; intros off x Hoff; cbn [adv_fields].
  - by intros ?%elem_of_nil.
  - destruct (Z.ltb_spec off (uint8 (dataLen r))); [|by intros ?%elem_of_nil].
    pose proof (field_len_range r off).
    intros [->|Hin]%elem_of_cons; [lia|].
    apply IH in Hin; lia.
Qed.

Lemma adv_fields_same r r' :
  same_payload r r' ->
  forall n off, 0 <= off -> adv_fields n r off = adv_fields n r' off.
Proof.
  intros [Hlen Hbytes]. induction n as [|n IH]; intros off Hoff; [done|].
  cbn [adv_fields]. rewrite <- Hlen.
  destruct (Z.ltb_spec off (uint8 (dataLen r))); [|done].
  assert (Hl : field_len r' off = field_len r off)
    by (unfold field_len; rewrite Hbytes; [done|lia]).
  rewrite Hl. pose proof (field_len_range r off).
  f_equal. apply IH. lia.
Qed.

Lemma field_has_uuid_same r r' uuid off :
  same_payload r r' -> 0 <= off ->
  1 <= field_len r off ->
  off + field_len r off + 1 <= uint8 (dataLen r) ->
  (uuid16_list_field r off -> Z.odd (field_len r off) = true) ->
  field_has_uuid r uuid off <-> field_has_uuid r' uuid off.
Proof.
  intros [Hlen Hbytes] Hoff H1 Hend Hodd.
  assert (Hl : field_len r' off = field_len r off)
    by (unfold field_len; rewrite Hbytes; [done|lia]).
  assert (Ht : field_type r' off = field_type r off)
    by (unfold field_type; rewrite Hbytes; [done|lia]).
  assert (Hty : uuid16_list_field r' off <-> uuid16_list_field r off)
    by (unfold uuid16_list_field; by rewrite Ht).
  assert (Hg : uuid16_list_field r off ->
               forall k, 0 <= k -> 2 * k < field_len r off - 1 ->
                 CyBle_Get16ByPtr (data r') (off + 2 + 2 * k)
                 = CyBle_Get16ByPtr (data r) (off + 2 + 2 * k)).
  { intros Hlist k Hk Hb. apply Hodd in Hlist.
    apply Z.odd_spec in Hlist as [m Hm].
    unfold CyBle_Get16ByPtr. rewrite !Hbytes by lia. done. }
  unfold field_has_uuid. rewrite Hty, Hl. split.
  - intros (Hlist & k & Hk & Hb & Hv). split; [done|].
    exists k. rewrite Hg by done. auto.
  - intros (Hlist & k & Hk & Hb & Hv). split; [done|].
    exists k. rewrite <- Hg by done. auto.
Qed.

Lemma well_formed_nonempty r : well_formed r -> uuid_fields_nonempty r.
Proof.
  intros [Hd Hwf] off Hin _.
  rewrite scanned_fields_spec_fields in Hin by done.
  destruct (Hwf off Hin) as (H1 & _). lia.
Qed.

Lemma well_formed_same r r' :
  well_formed r -> same_payload r r' -> well_formed r'.
Proof.
  intros [Hd Hwf] Hsame. pose proof Hsame as [Hlen Hbytes].
  split; [lia|]. intros off Hin.
  unfold spec_fields in Hin. rewrite <- Hlen in Hin.
  rewrite <- (adv_fields_same r r' Hsame) in Hin by lia.
  pose proof (adv_fields_bounds r _ _ _ (Z.le_refl 0) Hin) as Hb.
  destruct (Hwf off Hin) as (H1 & Hend & Hodd).
  assert (Hl : field_len r' off = field_len r off)
    by (unfold field_len; rewrite Hbytes; [done|lia]).
  assert (Ht : field_type r' off = field_type r off)
    by (unfold field_type; rewrite Hbytes; [done|lia]).
  rewrite Hl, <- Hlen. split; [done|]. split; [done|].
  unfold uuid16_list_field. rewrite Ht. exact Hodd.
Qed.

Lemma spec_has_uuid_same r r' uuid :
  well_formed r -> same_payload r r' ->
  spec_has_uuid r uuid <-> spec_has_uuid r' uuid.
Proof.
  intros [Hd Hwf] Hsame. pose proof Hsame as [Hlen Hbytes].
  assert (Hf : spec_fields r' = spec_fields r).
  { unfold spec_fields. rewrite <- Hlen.
    symmetry. by apply adv_fields_same. }
  unfold spec_has_uuid. rewrite Hf.
  split; intros (off & Hin & H); exists off; (split; [done|]);
    pose proof (adv_fields_bounds r _ _ _ (Z.le_refl 0) Hin) as Hb;
    destruct (Hwf off Hin) as (H1 & Hend & Hodd);
    pose proof (field_has_uuid_same r r' uuid off Hsame (proj1 Hb) H1 Hend
                  Hodd) as Hiff;
    by apply Hiff.
Qed.

Lemma CheckAdv_on_well_formed r uuid fuel :
  (512 <= fuel)%nat -> well_formed r ->
  exists v, CheckAdvPacketForServiceUuid fuel r uuid = Some v
    /\ (v = 0 \/ v = 1) /\ (v <> 0 <-> spec_has_uuid r uuid).
Proof.
  intros Hfuel Hwf. pose proof (well_formed_nonempty r Hwf) as Hne.
  destruct Hwf as [Hd _]. pose proof (uint8_range (dataLen r)) as Hd'.
  pose proof (field_len_range r 0) as Hr.
  destruct (do_fields_spec r uuid (Z.to_nat (uint8 (dataLen r))) fuel 0)
    as (v & Hv & Hiff); [lia|lia|lia|exact Hne|].
  exists v. split; [exact Hv|]. split.
  - apply (do_fields_0_or_1 fuel r uuid 0 0); auto.
  - unfold spec_has_uuid. rewrite <- scanned_fields_spec_fields by done.
    exact Hiff.
Qed.

(** X2: on a well-formed payload the filter reads nothing past the
    declared length: two reports that agree on [dataLen] and on the bytes
    below it get the same answer, whatever the memory behind holds. *)
Theorem CheckAdv_reads_within_payload r r' uuid fuel :
  (512 <= fuel)%nat -> well_formed r -> same_payload r r' ->
  exists v,
    CheckAdvPacketForServiceUuid fuel r uuid = Some v
    /\ CheckAdvPacketForServiceUuid fuel r' uuid = Some v.
Proof.
  intros Hfuel Hwf Hsame.
  destruct (CheckAdv_on_well_formed r uuid fuel Hfuel Hwf)
    as (v & Hv & H01 & Hiff).
  destruct (CheckAdv_on_well_formed r' uuid fuel Hfuel
              (well_formed_same r r' Hwf Hsame)) as (v' & Hv' & H01' & Hiff').
  rewrite <- (spec_has_uuid_same r r' uuid Hwf Hsame) in Hiff'.
  exists v. split; [done|]. rewrite Hv'. f_equal.
  destruct H01 as [->| ->], H01' as [->| ->]; try done.
  - assert (H : (1 : Z) <> 0) by done. apply Hiff', Hiff in H. done.
  - assert (H : (1 : Z) <> 0) by done. apply Hiff, Hiff' in H. done.
Qed.

Lemma CheckAdv_reads_within_payload_witness :
  exists v,
    CheckAdvPacketForServiceUuid 512 (ipss_report_then []) 6176 = Some v
    /\ CheckAdvPacketForServiceUuid 512 (ipss_report_then [99; 3; 32; 24]) 6176
       = Some v.
Proof.
  apply (CheckAdv_reads_within_payload (ipss_report_then [])
           (ipss_report_then [99; 3; 32; 24]) 6176 512).
  - lia.
  - split; [reflexivity|]. intros off Hin.
    change (spec_fields _) with [0; 3] in Hin.
    apply elem_of_cons in Hin as [->|Hin].
    + split; [by vm_compute|]. split; [by vm_compute|].
      intros [H|H]; vm_compute in H; discriminate.
    + apply list_elem_of_singleton in Hin as ->.
      split; [by vm_compute|]. split; [by vm_compute|]. reflexivity.
  - split; [reflexivity|]. intros i Hi.
    change (uint8 (dataLen _)) with 7 in Hi.
    assert (i = 0 \/ i = 1 \/ i = 2 \/ i = 3 \/ i = 4 \/ i = 5 \/ i = 6)
      as [->|[->|[->|[->|[->|[->| ->]]]]]] by lia; reflexivity.
Defined.

Section RouterMoreProofs.

Context {cfg : main_h}.

(** X3: a report none of whose examined fields is a list of 16-bit UUIDs
    is dropped by the scan-result handler, whatever its length bytes: the
    globals stay as they are and nothing is printed or called. *)
Theorem sighting_without_uuid_list_ignored fuel ble g r :
  (512 <= fuel)%nat ->
  (forall off, off ∈ scanned_fields r -> ~ uuid16_list_field r off) ->
  AppCallback fuel ble g (CYBLE_EVT_GAPC_SCAN_PROGRESS_RESULT r)
  = Some (g, []).
Proof.
  intros Hfuel Hno. pose proof (uint8_range (dataLen r)) as Hd.
  pose proof (field_len_range r 0) as Hr.
  destruct (do_fields_spec r CYBLE_UUID_INTERNET_PROTOCOL_SUPPORT_SERVICE
              (Z.to_nat (uint8 (dataLen r))) fuel 0)
    as (v & Hv & Hiff); [lia|lia|lia| |].
  { intros off Hin Hlist. by destruct (Hno off Hin). }
  cbn [AppCallback]. unfold CheckAdvPacketForServiceUuid. rewrite Hv.
  destruct (Z.eqb_spec v 0) as [_|Hne]; [done|].
  apply Hiff in Hne as (off & Hin & Hlist & _). by destruct (Hno off Hin).
Qed.

(** ** More on the registry *)

Lemma step_accepted fuel g i g' out :
  step fuel g i = Some (g', out) ->
  (peerAddr g' = peerAddr g /\ advDevices g' = advDevices g)
  \/ exists ble r, i = Event ble (CYBLE_EVT_GAPC_SCAN_PROGRESS_RESULT r)
       /\ accepted fuel r = true
       /\ g' = fst (log_device g r).
Proof.
  intros Hstep.
  destruct (step_registry _ _ _ _ _ Hstep) as [H|(ble & r & -> & Hg)];
    [by left|].
  cbn [step AppCallback] in Hstep.
  destruct (CheckAdvPacketForServiceUuid _ _ _) as [present|] eqn:Hc;
    [|done].
  destruct (present =? 0) eqn:Hp.
  - left. by injection Hstep as <- _.
  - right. exists ble, r. unfold accepted. by rewrite Hc, Hp.
Qed.

Lemma accepted_sightings_scan fuel ble r inputs :
  accepted_sightings fuel
    (Event ble (CYBLE_EVT_GAPC_SCAN_PROGRESS_RESULT r) :: inputs)
  = if accepted fuel r then r :: accepted_sightings fuel inputs
    else accepted_sightings fuel inputs.
Proof.
  unfold accepted_sightings. change (?x :: inputs) with ([x] ++ inputs).
  rewrite omap_app. cbn. by destruct (accepted fuel r).
Qed.

Lemma accepted_sightings_incl fuel i inputs r :
  r ∈ accepted_sightings fuel inputs ->
  r ∈ accepted_sightings fuel (i :: inputs).
Proof.
  unfold accepted_sightings. change (i :: inputs) with ([i] ++ inputs).
  rewrite omap_app, elem_of_app. auto.
Qed.

(** What an accepted sighting makes of the registered entries. *)
Lemma log_device_registry g r :
  registry_ok g ->
  registry (fst (log_device g r)) = registry g
  \/ (registry (fst (log_device g r)) = registry g ++ [entry_of r]
      /\ logged_at (peerBdAddr r) (registry g) 0 = None
      /\ advDevices g < Z.of_nat CYBLE_MAX_ADV_DEVICES)
  \/ (registry (fst (log_device g r)) = []
      /\ (255 < CYBLE_MAX_ADV_DEVICES)%nat).
Proof.
  intros (Hlen & Hn & Hu8 & _). unfold log_device.
  destruct (logged_at (peerBdAddr r) (registry g) 0) as [i|] eqn:Hl;
    [by left|].
  destruct (Z.ltb_spec (advDevices g) (Z.of_nat CYBLE_MAX_ADV_DEVICES))
    as [Hlt|Hge]; [|by left].
  right. fold (entry_of r). unfold registry. cbn.
  destruct (Z.ltb_spec (advDevices g + 1) 256) as [Hsmall|Hwrap].
  - left. split; [|done].
    assert (Hcast : uint8 (advDevices g + 1) = advDevices g + 1)
      by (unfold uint8; apply Z.mod_small; lia).
    rewrite Hcast.
    replace (Z.to_nat (advDevices g + 1)) with (S (Z.to_nat (advDevices g)))
      by lia.
    rewrite (take_S_r _ _ (entry_of r))
      by (apply list_lookup_insert_eq; lia).
    by rewrite take_insert_ge.
  - right. replace (advDevices g + 1) with 256 by lia. split; [done|lia].
Qed.

Lemma run_registry_from fuel inputs :
  forall g g' out,
    registry_ok g -> run fuel g inputs = Some (g', out) ->
    forall e, e ∈ registry g' ->
      e ∈ registry g
      \/ exists r, r ∈ accepted_sightings fuel inputs /\ e = entry_of r.
Proof.
  induction inputs as [|i inputs IH]; intros g g' out Hok; cbn [run].
  - intros [= <- _] e He. by left.
  - destruct (step fuel g i) as [[g1 out1]|] eqn:Hstep; [|done].
    destruct (run fuel g1 inputs) as [[g2 out2]|] eqn:Hrun; [|done].
    intros [= <- _] e He.
    pose proof (step_registry_ok _ _ _ _ _ Hok Hstep) as Hok1.
    destruct (IH _ _ _ Hok1 Hrun e He) as [He1|(r & Hr & ->)].
    + destruct (step_accepted _ _ _ _ _ Hstep)
        as [[Hp Ha]|(ble & r & -> & Hacc & ->)].
      * left. unfold registry in *. by rewrite <- Hp, <- Ha.
      * destruct (log_device_registry g r Hok) as [H|[(H & _)|(H & _)]];
          rewrite H in He1.
        -- by left.
        -- apply elem_of_app in He1 as [?|Hs%list_elem_of_singleton];
             [by left|]. subst e.
           right. exists r. split; [|done].
           rewrite accepted_sightings_scan, Hacc. left.
        -- by apply elem_of_nil in He1.
    + right. exists r. split; [|done]. by apply accepted_sightings_incl.
Qed.

(** X4: every registered entry comes from a sighting that passed the
    filter: its address bytes and its address kind are those of an
    accepted report among the inputs. *)
Theorem registry_entries_from_sightings fuel inputs g out e :
  run fuel init inputs = Some (g, out) ->
  e ∈ registry g ->
  exists r, r ∈ accepted_sightings fuel inputs /\ e = entry_of r.
Proof.
  intros Hrun He.
  destruct (run_registry_from fuel inputs init g out registry_ok_init Hrun
              e He) as [H|H]; [|done].
  by apply elem_of_nil in H.
Qed.

Lemma run_registry_prefix fuel inputs :
  (CYBLE_MAX_ADV_DEVICES <= 255)%nat ->
  forall g g' out,
    registry_ok g -> run fuel g inputs = Some (g', out) ->
    registry g `prefix_of` registry g'.
Proof.
  intros Hcap. induction inputs as [|i inputs IH]; intros g g' out Hok;
    cbn [run].
  - by intros [= <- _].
  - destruct (step fuel g i) as [[g1 out1]|] eqn:Hstep; [|done].
    destruct (run fuel g1 inputs) as [[g2 out2]|] eqn:Hrun; [|done].
    intros [= <- _].
    pose proof (step_registry_ok _ _ _ _ _ Hok Hstep) as Hok1.
    transitivity (registry g1); [|by apply (IH g1 g2 out2)].
    destruct (step_accepted _ _ _ _ _ Hstep)
      as [[Hp Ha]|(ble & r & -> & Hacc & ->)].
    + unfold registry. by rewrite Hp, Ha.
    + destruct (log_device_registry g r Hok) as [H|[(H & _)|(_ & H)]];
        [by rewrite H|rewrite H; by apply prefix_app_r|lia].
Qed.

(** X5: with a capacity that fits the [uint8] count, the registry only
    grows at its end: what is registered at some point is a prefix of
    what is registered later; no entry is removed, moved or changed. *)
Theorem registry_append_only fuel inputs inputs' g out g' out' :
  (CYBLE_MAX_ADV_DEVICES <= 255)%nat ->
  run fuel init inputs = Some (g, out) ->
  run fuel g inputs' = Some (g', out') ->
  registry g `prefix_of` registry g'.
Proof.
  intros Hcap Hrun Hrun'.
  apply (run_registry_prefix fuel inputs' Hcap g g' out'); [|done].
  by apply (run_registry_ok fuel inputs init g out registry_ok_init).
Qed.

(** X6: with a capacity that fits the [uint8] count, an accepted sighting
    finds its address in the registry afterwards, unless the registry
    was full. *)
Theorem accepted_sighting_registered fuel inputs g out ble r g' out' :
  (CYBLE_MAX_ADV_DEVICES <= 255)%nat ->
  run fuel init inputs = Some (g, out) ->
  accepted fuel r = true ->
  AppCallback fuel ble g (CYBLE_EVT_GAPC_SCAN_PROGRESS_RESULT r)
  = Some (g', out') ->
  bdAddr (entry_of r) ∈ bdAddr <$> registry g'
  \/ advDevices g = Z.of_nat CYBLE_MAX_ADV_DEVICES.
Proof.
  intros Hcap Hrun Hacc Hcb.
  pose proof (run_registry_ok fuel inputs init g out registry_ok_init Hrun)
    as Hok.
  assert (Hg' : g' = fst (log_device g r)).
  { cbn [AppCallback] in Hcb. unfold accepted in Hacc.
    destruct (CheckAdvPacketForServiceUuid _ _ _) as [present|]; [|done].
    destruct (present =? 0); [done|]. injection Hcb as Hcb. by rewrite Hcb. }
  subst g'. pose proof Hok as (_ & Hn & _ & _ & Hcan).
  destruct (Z.eq_dec (advDevices g) (Z.of_nat CYBLE_MAX_ADV_DEVICES))
    as [Hfull|Hroom]; [by right|]. left.
  unfold log_device.
  destruct (logged_at (peerBdAddr r) (registry g) 0) as [i|] eqn:Hl.
  - apply logged_at_Some in Hl as (e & He & Heq). cbn [fst].
    apply list_elem_of_fmap. exists e. split; [|done]. cbn.
    by rewrite <- Heq, (proj1 (Forall_forall _ _) Hcan e He).
  - destruct (log_device_registry g r Hok) as [H|[(H & _)|(_ & H)]];
      [|unfold log_device in H; rewrite Hl in H|lia].
    + unfold log_device in H. rewrite Hl in H.
      rewrite (proj2 (Z.ltb_lt _ _)) in H |- * by lia. cbn [fst] in *.
      exfalso. apply (f_equal length) in H. unfold registry in H. cbn in H.
      rewrite !length_take, length_insert in H.
      destruct Hok as (Hlen & _ & Hu8 & _).
      assert (uint8 (advDevices g + 1) = advDevices g + 1)
        by (unfold uint8; apply Z.mod_small; lia).
      lia.
    + rewrite H. rewrite fmap_app. apply elem_of_app. right. by left.
Qed.

End RouterMoreProofs.

Section MainLoopProofs.

Context {cfg : main_h}.

(** ** More on the main loop *)

Lemma uint8_small (z : Z) : 0 <= z < 256 -> uint8 z = z.
Proof. intros H. unfold uint8. apply Z.mod_small. lia. Qed.

Lemma uint16_small (z : Z) : 0 <= z < 65536 -> uint16 z = z.
Proof. intros H. unfold uint16. apply Z.mod_small. lia. Qed.

Lemma uint16_range (z : Z) : 0 <= uint16 z < 65536.
Proof. unfold uint16. apply Z.mod_pos_bound. lia. Qed.

(** What an event handler never touches. *)
Lemma AppCallback_frame fuel ble g event g' out :
  AppCallback fuel ble g event = Some (g', out) ->
  deviceN g' = deviceN g /\ state g' = state g
  /\ counter g' = counter g /\ repeats g' = repeats g.
Proof.
  destruct event; cbn [AppCallback]; try by intros [= <- _].
  - destruct (CheckAdvPacketForServiceUuid _ _ _) as [present|]; [|done].
    destruct (present =? 0); [by intros [= <- _]|]. intros [= H].
    replace g' with (fst (log_device g advReport)) by (by rewrite H).
    unfold log_device. destruct (logged_at _ _ _); [done|].
    by destruct (_ <? _).
  - destruct (CyBle_GetState ble); try destruct (state g) eqn:Hs;
      by intros [= <- _].
  - destruct (_ =? _); by intros [= <- _].
Qed.

(** What a command of the main loop makes of the globals. *)
Lemma run_command_frame ble g command digit :
  let g' := fst (run_command ble g command digit) in
  l2capConnected g' = l2capConnected g
  /\ l2capParameters g' = l2capParameters g
  /\ connIntv g' = connIntv g
  /\ (state g' = state g \/ state g' = STATE_CONNECTING)
  /\ (deviceN g' = deviceN g \/ 0 <= deviceN g' <= 9).
Proof.
  unfold run_command.
  destruct (command =? 99); [cbn; auto 10|].
  destruct (command =? 118); [cbn; auto 10|].
  destruct (command =? 100); [cbn; auto 10|].
  destruct (command =? 115); [cbn; auto 10|].
  destruct (command =? 122).
  - destruct (_ && _) eqn:Hd; [|cbn; auto 10].
    apply andb_true_iff in Hd as [Hlo%Z.leb_le Hhi%Z.leb_le].
    assert (Hv : 0 <= uint8 (uint8 digit - 48) <= 9)
      by (rewrite (uint8_small (uint8 digit - 48)); lia).
    cbn [fst set_deviceN deviceN l2capConnected l2capParameters connIntv
         state]. auto 10.
  - destruct (command =? 49); [cbn; auto 10|].
    destruct (command =? 104); cbn; auto 10.
Qed.

(** A pass of the main loop runs no command, or the typed one, or the
    pending one after clearing it. *)
Lemma main_poll_cases ble g uart digit :
  fst (main_poll ble g uart digit) = g
  \/ (custom_command g = 0
      /\ fst (main_poll ble g uart digit)
         = fst (run_command ble g (uint8 uart) digit))
  \/ (custom_command g <> 0
      /\ fst (main_poll ble g uart digit)
         = fst (run_command ble (set_custom_command g 0) (custom_command g)
                  digit)).
Proof.
  unfold main_poll.
  destruct (negb (uint8 uart =? 0)
            || negb (custom_command g =? 0) && (cyBle_busyStatus ble =? 0));
    [|by left].
  right. destruct (Z.eqb_spec (custom_command g) 0) as [Hc|Hc]; cbn [negb].
  - left. split; [done|]. by destruct (run_command _ _ _ _).
  - right. split; [done|]. by destruct (run_command _ _ _ _).
Qed.

Lemma main_poll_frame ble g uart digit :
  let g' := fst (main_poll ble g uart digit) in
  l2capConnected g' = l2capConnected g
  /\ l2capParameters g' = l2capParameters g
  /\ connIntv g' = connIntv g
  /\ (state g' = state g \/ state g' = STATE_CONNECTING)
  /\ (deviceN g' = deviceN g \/ 0 <= deviceN g' <= 9)
  /\ (custom_command g' = custom_command g \/ custom_command g' = 0).
Proof.
  cbn zeta.
  destruct (main_poll_cases ble g uart digit) as [->|[[Hc ->]|[Hc ->]]].
  - auto 10.
  - pose proof (run_command_frame ble g (uint8 uart) digit) as H.
    cbn zeta in H. rewrite run_command_custom_command. tauto.
  - pose proof (run_command_frame ble (set_custom_command g 0)
                  (custom_command g) digit) as H.
    cbn zeta in H. rewrite run_command_custom_command. cbn in *. tauto.
Qed.

Lemma connects_app a b : connects (a ++ b) = connects a ++ connects b.
Proof. unfold connects. by rewrite calls_app, omap_app. Qed.

Lemma run_deviceN fuel inputs :
  forall g g' out,
    registry_ok g -> 0 <= deviceN g <= 9 ->
    run fuel g inputs = Some (g', out) ->
    0 <= deviceN g' <= 9
    /\ ((10 <= CYBLE_MAX_ADV_DEVICES)%nat ->
        forall a, a ∈ connects out -> is_Some a).
Proof.
  induction inputs as [|i inputs IH]; intros g g' out Hok Hd; cbn [run].
  - intros [= <- <-]. split; [done|]. by intros _ a ?%elem_of_nil.
  - destruct (step fuel g i) as [[g1 out1]|] eqn:Hstep; [|done].
    destruct (run fuel g1 inputs) as [[g2 out2]|] eqn:Hrun; [|done].
    intros [= <- <-].
    pose proof (step_registry_ok _ _ _ _ _ Hok Hstep) as Hok1.
    assert (Hd1 : 0 <= deviceN g1 <= 9).
    { destruct i as [ble event|ble uart digit]; cbn [step] in Hstep.
      - destruct (AppCallback_frame _ _ _ _ _ _ Hstep) as (-> & _). done.
      - injection Hstep as Hstep.
        pose proof (main_poll_frame ble g uart digit) as H. cbn zeta in H.
        rewrite Hstep in H. cbn [fst] in H. destruct H as (_&_&_&_&[->|?]&_);
          done. }
    destruct (IH _ _ _ Hok1 Hd1 Hrun) as [Hd2 Hc2]. split; [done|].
    intros Hcap a. rewrite connects_app, elem_of_app.
    intros [Ha|Ha]; [|by apply Hc2].
    rewrite (step_connects _ _ _ _ _ Hstep) in Ha.
    destruct Hok as (Hlen & _).
    assert (Hsome : is_Some (peerAddr g !! Z.to_nat (deviceN g)))
      by (apply lookup_lt_is_Some; lia).
    destruct i as [ble []|]; try by apply elem_of_nil in Ha.
    destruct (CyBle_GetState ble), (state g);
      try (by apply elem_of_nil in Ha).
    by apply list_elem_of_singleton in Ha as ->.
Qed.

(** X7: the index of the selected peer stays between 0 and 9 whatever
    is typed, so with a registry of at least ten entries every connect
    request names an element of the array [peerAddr]. *)
Theorem selected_device_in_bounds fuel inputs g out :
  run fuel init inputs = Some (g, out) ->
  0 <= deviceN g <= 9
  /\ ((10 <= CYBLE_MAX_ADV_DEVICES)%nat ->
      forall a, a ∈ connects out -> is_Some a).
Proof.
  intros Hrun.
  by apply (run_deviceN fuel inputs init g out registry_ok_init).
Qed.

Lemma step_custom_command fuel g i g' out :
  step fuel g i = Some (g', out) ->
  custom_command g' = custom_command g
  \/ custom_command g' = 0 \/ custom_command g' = 49.
Proof.
  destruct i as [ble event|ble uart digit]; cbn [step].
  - destruct event;
      try (intros H; left;
           apply (AppCallback_custom_command _ _ _ _ _ _ H); by intros ?).
    cbn [AppCallback]. destruct (_ =? _); intros [= <- _]; auto.
  - intros [= H]. pose proof (main_poll_frame ble g uart digit) as Hf.
    cbn zeta in Hf. rewrite H in Hf. cbn [fst] in Hf. tauto.
Qed.

(** X8: [custom_command] only ever holds 0 or the character ['1']: the
    one command an event handler can leave for the main loop is the
    next send. *)
Theorem custom_command_is_send fuel inputs g out :
  run fuel init inputs = Some (g, out) ->
  custom_command g = 0 \/ custom_command g = 49.
Proof.
  assert (H : forall g0 g' out',
             custom_command g0 = 0 \/ custom_command g0 = 49 ->
             run fuel g0 inputs = Some (g', out') ->
             custom_command g' = 0 \/ custom_command g' = 49).
  { induction inputs as [|i inputs IH]; intros g0 g' out' Hc; cbn [run].
    - by intros [= <- _].
    - destruct (step fuel g0 i) as [[g1 out1]|] eqn:Hstep; [|done].
      destruct (run fuel g1 inputs) as [[g2 out2]|] eqn:Hrun; [|done].
      intros [= <- _]. apply (IH g1 g2 out2); [|done].
      destruct (step_custom_command _ _ _ _ _ Hstep) as [->|?]; done. }
  intros Hrun. apply (H init g out); [by left|done].
Qed.

(** X9: while a command left by a handler is pending, a character typed
    on the UART is lost: the pass runs the pending command, whatever the
    character, and clears it. *)
Theorem pending_command_beats_typed ble g uart uart' digit :
  custom_command g <> 0 -> uint8 uart <> 0 -> uint8 uart' <> 0 ->
  main_poll ble g uart digit = main_poll ble g uart' digit
  /\ custom_command (fst (main_poll ble g uart digit)) = 0
  /\ fst (main_poll ble g uart digit)
     = fst (run_command ble (set_custom_command g 0) (custom_command g)
              digit).
Proof.
  intros Hc Hu Hu'.
  rewrite !main_poll_custom by auto. split; [done|]. cbn [fst snd].
  split; [by rewrite run_command_custom_command|done].
Qed.

Ltac not_in_calls :=
  let H := fresh in
  intros H;
  repeat (apply elem_of_cons in H as [H|H]; [discriminate|]);
  by apply elem_of_nil in H.

Lemma command_calls_no_hibernate ble g command :
  CySysPmHibernate ∉ command_calls ble g command.
Proof.
  unfold command_calls. repeat (destruct (_ =? _); [not_in_calls|]).
  not_in_calls.
Qed.

Lemma step_connecting fuel g i g' out :
  state g = STATE_CONNECTING ->
  step fuel g i = Some (g', out) ->
  state g' = STATE_CONNECTING /\ CySysPmHibernate ∉ calls out.
Proof.
  intros Hs. destruct i as [ble event|ble uart digit]; cbn [step].
  - intros H. destruct (AppCallback_frame _ _ _ _ _ _ H) as (_ & -> & _).
    split; [done|]. rewrite (AppCallback_calls _ _ _ _ _ _ H).
    destruct event; cbn [event_calls]; rewrite ?Hs;
      try (destruct (CyBle_GetState ble)); not_in_calls.
  - intros [= H]. pose proof (main_poll_frame ble g uart digit) as Hf.
    cbn zeta in Hf. rewrite H in Hf. cbn [fst] in Hf.
    split; [destruct Hf as (_&_&_&[->|?]&_); done|].
    replace out with (snd (main_poll ble g uart digit)) by (by rewrite H).
    destruct (main_poll_calls_cases ble g uart digit)
      as (command & g0 & [-> | [-> | [-> | ->]]]);
      [not_in_calls|not_in_calls|apply command_calls_no_hibernate|].
    rewrite elem_of_app. intros [Hc|Hfl];
      [by apply (command_calls_no_hibernate ble g0 command)|].
    revert Hfl. not_in_calls.
Qed.

(** X10: [state] never returns to [STATE_INIT]: once the connect command
    has set [STATE_CONNECTING] it stays, and from then on the end of a
    scan is never answered by hibernation. *)
Theorem no_hibernate_after_connect_command fuel inputs g g' out :
  state g = STATE_CONNECTING ->
  run fuel g inputs = Some (g', out) ->
  state g' = STATE_CONNECTING /\ CySysPmHibernate ∉ calls out.
Proof.
  revert g g' out. induction inputs as [|i inputs IH];
    intros g g' out Hs; cbn [run].
  - intros [= <- <-]. split; [done|]. by intros ?%elem_of_nil.
  - destruct (step fuel g i) as [[g1 out1]|] eqn:Hstep; [|done].
    destruct (run fuel g1 inputs) as [[g2 out2]|] eqn:Hrun; [|done].
    intros [= <- <-].
    destruct (step_connecting _ _ _ _ _ Hs Hstep) as [Hs1 Hh1].
    destruct (IH _ _ _ Hs1 Hrun) as [Hs2 Hh2]. split; [done|].
    rewrite calls_app, elem_of_app. tauto.
Qed.

End MainLoopProofs.

(** ** The payload of a send *)

Lemma bytes_read_bytes p n i :
  (i < n)%nat -> load8 (bytes (read_bytes p n)) (Z.of_nat i) = load8 p (Z.of_nat i).
Proof.
  intros Hi. unfold load8 at 1, bytes.
  rewrite Nat2Z.id, nth_lookup, read_bytes_lookup by done. cbn.
  apply load8_idemp.
Qed.

Lemma word_bytes_low words j :
  load8 (word_bytes words) (2 * Z.of_nat j) = uint16 (nth j words 0) mod 256.
Proof.
  unfold load8, word_bytes.
  replace (2 * Z.of_nat j / 2) with (Z.of_nat j)
    by (rewrite Z.mul_comm, Z.div_mul; lia).
  rewrite Nat2Z.id, Z.even_mul. cbn [Z.even orb].
  apply uint8_small. apply Z.mod_pos_bound. lia.
Qed.

Lemma word_bytes_high words j :
  load8 (word_bytes words) (2 * Z.of_nat j + 1)
  = uint16 (nth j words 0) / 256.
Proof.
  unfold load8, word_bytes.
  replace ((2 * Z.of_nat j + 1) / 2) with (Z.of_nat j)
    by (apply (Z.div_unique _ 2 _ 1); lia).
  rewrite Nat2Z.id, Z.even_add, Z.even_mul. cbn.
  apply uint8_small. pose proof (uint16_range (nth j words 0)).
  split; [apply Z.div_pos; lia|apply Z.div_lt_upper_bound; lia].
Qed.

(** Low byte first, a 16-bit word read back is the word. *)
Lemma lor_shiftl_bytes w :
  0 <= w < 65536 -> Z.lor (Z.shiftl (w / 256) 8) (w mod 256) = w.
Proof.
  intros Hw. change 256 with (2 ^ 8).
  rewrite <- Z.shiftr_div_pow2, <- Z.land_ones by lia.
  apply Z.bits_inj'. intros n Hn.
  rewrite Z.lor_spec, Z.land_spec, Z.shiftl_spec by done.
  destruct (Z.ltb_spec n 8).
  - rewrite (Z.testbit_neg_r _ (n - 8)) by lia.
    rewrite Z.ones_spec_low by lia. cbn. by rewrite andb_true_r.
  - rewrite Z.shiftr_spec by lia. rewrite Z.ones_spec_high by lia.
    replace (n - 8 + 8) with n by lia. by rewrite andb_false_r, orb_false_r.
Qed.

Section PayloadProofs.

Context {cfg : main_h}.

Lemma length_next_payload g : length (next_payload g) = L2CAP_MAX_LEN.
Proof. apply length_read_bytes. Qed.

Lemma next_payload_word g j :
  (j < L2CAP_MAX_LEN / 2)%nat ->
  CyBle_Get16ByPtr (bytes (next_payload g)) (2 * Z.of_nat j)
  = uint16 (counter g + Z.of_nat j).
Proof.
  intros Hj.
  assert (Hdiv : (2 * (L2CAP_MAX_LEN / 2) <= L2CAP_MAX_LEN)%nat)
    by (apply Nat.Div0.mul_div_le).
  unfold CyBle_Get16ByPtr, next_payload.
  replace (2 * Z.of_nat j) with (Z.of_nat (2 * j)) by lia.
  replace (Z.of_nat (2 * j) + 1) with (Z.of_nat (2 * j + 1)) by lia.
  rewrite !bytes_read_bytes by lia.
  replace (Z.of_nat (2 * j + 1)) with (2 * Z.of_nat j + 1) by lia.
  replace (Z.of_nat (2 * j)) with (2 * Z.of_nat j) by lia.
  rewrite word_bytes_low, word_bytes_high.
  set (words := map _ _).
  assert (Hw : nth j words 0 = uint16 (counter g + Z.of_nat j)).
  { unfold words. rewrite nth_lookup, list_lookup_fmap, lookup_seq_lt by done.
    reflexivity. }
  rewrite Hw. pose proof (uint16_range (counter g + Z.of_nat j)) as Hr.
  rewrite (uint16_small (uint16 _)) by done.
  rewrite lor_shiftl_bytes by done. by apply uint16_small.
Qed.

(** The payload has [L2CAP_MAX_LEN] bytes and is the run of 16-bit
    words, low byte first, that starts at the counter. *)
Lemma next_payload_words g :
  length (next_payload g) = L2CAP_MAX_LEN
  /\ forall j, (j < L2CAP_MAX_LEN / 2)%nat ->
       CyBle_Get16ByPtr (bytes (next_payload g)) (2 * Z.of_nat j)
       = uint16 (counter g + Z.of_nat j).
Proof.
  split; [apply length_next_payload|]. intros j Hj.
  by apply next_payload_word.
Qed.

(** X11: command ['1'] makes one call, [CyBle_L2capChannelDataWrite] on
    the connection handle and the stored channel id; the payload it
    hands over is what the loopback buffer holds afterwards, has
    [L2CAP_MAX_LEN] bytes, and its [j]-th 16-bit word, read low byte
    first, is [counter + j] modulo 65536. *)
Theorem send_command_payload ble g digit :
  exists sent,
    calls (snd (run_command ble g 49 digit))
    = [CyBle_L2capChannelDataWrite (snd (cyBle_connHandle ble))
         (lCid (l2capParameters g)) sent]
    /\ read_bytes
         (word_bytes
            (ipv6LoopbackBuffer (fst (run_command ble g 49 digit))))
         L2CAP_MAX_LEN = sent
    /\ length sent = L2CAP_MAX_LEN
    /\ forall j, (j < L2CAP_MAX_LEN / 2)%nat ->
         CyBle_Get16ByPtr (bytes sent) (2 * Z.of_nat j)
         = uint16 (counter g + Z.of_nat j).
Proof.
  exists (next_payload g). split.
  - change (run_command ble g 49 digit) with (send_loopback ble g).
    apply send_loopback_calls.
  - split; [symmetry; apply (send_loopback_buffer ble g)|].
    apply next_payload_words.
Qed.

Lemma uint16_add_l a b : uint16 (uint16 a + b) = uint16 (a + b).
Proof. unfold uint16. apply Z.add_mod_idemp_l. lia. Qed.

Lemma run_command_counter ble g command digit :
  let r := run_command ble g command digit in
  (writes (snd r) = []
   /\ counter (fst r) = counter g /\ repeats (fst r) = repeats g)
  \/ (writes (snd r) = [next_payload g]
      /\ counter (fst r)
         = uint16 (counter g + Z.of_nat (L2CAP_MAX_LEN / 2))
      /\ repeats (fst r) = uint16 (repeats g + 1)).
Proof.
  cbn zeta. unfold writes. rewrite run_command_calls.
  unfold run_command, command_calls.
  destruct (command =? 99); [by left|].
  destruct (command =? 118); [by left|].
  destruct (command =? 100); [by left|].
  destruct (command =? 115); [by left|].
  destruct (command =? 122); [left; by destruct (_ && _)|].
  destruct (command =? 49); [by right|].
  left. by destruct (command =? 104).
Qed.

Lemma step_counter fuel g i g' out :
  step fuel g i = Some (g', out) ->
  (writes out = [] /\ counter g' = counter g /\ repeats g' = repeats g)
  \/ (writes out = [next_payload g]
      /\ counter g' = uint16 (counter g + Z.of_nat (L2CAP_MAX_LEN / 2))
      /\ repeats g' = uint16 (repeats g + 1)).
Proof.
  destruct i as [ble event|ble uart digit]; cbn [step].
  - intros H. left. split; [by apply (AppCallback_writes fuel ble g event g')|].
    destruct (AppCallback_frame _ _ _ _ _ _ H) as (_ & _ & Hc & Hr). done.
  - intros [= H].
    replace g' with (fst (main_poll ble g uart digit)) by (by rewrite H).
    replace out with (snd (main_poll ble g uart digit)) by (by rewrite H).
    clear H. unfold main_poll.
    destruct (negb (uint8 uart =? 0)
              || negb (custom_command g =? 0) && (cyBle_busyStatus ble =? 0)).
    + destruct (negb (custom_command g =? 0)).
      * pose proof (run_command_counter ble (set_custom_command g 0)
                      (custom_command g) digit) as H.
        cbn zeta in H. destruct (run_command _ _ _ _) as [g1 out1].
        cbn [fst snd] in *. rewrite writes_app.
        destruct (_ && _); cbn; by rewrite app_nil_r.
      * pose proof (run_command_counter ble g (uint8 uart) digit) as H.
        cbn zeta in H. destruct (run_command _ _ _ _) as [g1 out1].
        cbn [fst snd] in *. rewrite writes_app.
        destruct (_ && _); cbn; by rewrite app_nil_r.
    + left. cbn [fst snd]. by destruct (_ && _).
Qed.

Lemma run_counter fuel inputs :
  forall g g' out,
    uint16 (counter g) = counter g -> uint16 (repeats g) = repeats g ->
    run fuel g inputs = Some (g', out) ->
    counter g'
    = uint16 (counter g
              + Z.of_nat (L2CAP_MAX_LEN / 2) * Z.of_nat (length (writes out)))
    /\ repeats g' = uint16 (repeats g + Z.of_nat (length (writes out))).
Proof.
  induction inputs as [|i inputs IH]; intros g g' out Hc Hr; cbn [run].
  - intros [= <- <-]. cbn. by rewrite Z.mul_0_r, !Z.add_0_r.
  - destruct (step fuel g i) as [[g1 out1]|] eqn:Hstep; [|done].
    destruct (run fuel g1 inputs) as [[g2 out2]|] eqn:Hrun; [|done].
    intros [= <- <-]. rewrite writes_app, length_app.
    destruct (step_counter _ _ _ _ _ Hstep)
      as [(-> & Hc1 & Hr1)|(-> & Hc1 & Hr1)].
    + rewrite <- Hc1, <- Hr1 in *. by apply IH.
    + assert (Hc1' : uint16 (counter g1) = counter g1)
        by (rewrite Hc1; apply uint16_small, uint16_range).
      assert (Hr1' : uint16 (repeats g1) = repeats g1)
        by (rewrite Hr1; apply uint16_small, uint16_range).
      destruct (IH _ _ _ Hc1' Hr1' Hrun) as [-> ->].
      rewrite Hc1, Hr1, !uint16_add_l. cbn [length].
      split; f_equal; lia.
Qed.

(** X12: from the start, the counter has advanced by [L2CAP_MAX_LEN / 2]
    for each send and [repeats] by one, both modulo 65536, and by
    nothing else: the payloads continue one another. *)
Theorem counter_follows_writes fuel inputs g out :
  run fuel init inputs = Some (g, out) ->
  counter g
  = uint16 (Z.of_nat (L2CAP_MAX_LEN / 2) * Z.of_nat (length (writes out)))
  /\ repeats g = uint16 (Z.of_nat (length (writes out))).
Proof.
  intros Hrun.
  destruct (run_counter fuel inputs init g out eq_refl eq_refl Hrun)
    as [Hc Hr].
  by rewrite Hc, Hr.
Qed.

(** The payload of a send differs from the payload of the send before. *)
Lemma consecutive_payloads_differ ble g :
  0 < Z.of_nat (L2CAP_MAX_LEN / 2) < 65536 ->
  uint16 (counter g) = counter g ->
  next_payload (fst (send_loopback ble g)) <> next_payload g.
Proof.
  intros Hw Hc Heq.
  assert (H0 : (0 < L2CAP_MAX_LEN / 2)%nat) by lia.
  pose proof (next_payload_word g 0 H0) as Hold.
  pose proof (next_payload_word (fst (send_loopback ble g)) 0 H0) as Hnew.
  rewrite Heq, Hold in Hnew.
  change (counter (fst (send_loopback ble g)))
    with (uint16 (counter g + Z.of_nat (L2CAP_MAX_LEN / 2))) in Hnew.
  change (Z.of_nat 0) with 0 in Hnew. rewrite !Z.add_0_r, Hc in Hnew.
  pose proof (uint16_range (counter g)) as Hr. rewrite Hc in Hr.
  rewrite (uint16_small (uint16 _)) in Hnew by apply uint16_range.
  unfold uint16 in Hnew.
  destruct (Z.ltb_spec (counter g + Z.of_nat (L2CAP_MAX_LEN / 2)) 65536).
  - rewrite Z.mod_small in Hnew by lia. lia.
  - replace (counter g + Z.of_nat (L2CAP_MAX_LEN / 2))
      with (counter g + Z.of_nat (L2CAP_MAX_LEN / 2) - 65536 + 1 * 2 ^ 16)
      in Hnew by lia.
    rewrite Z.mod_add, Z.mod_small in Hnew by lia. lia.
Qed.

(** X13: when the buffer holds at least one word and fewer than 65536,
    an echo of the payload before the latest one does not pass for the
    echo of the latest: after two sends, a delivered payload equal to
    the first is reported as a failure and sets off no further send. *)
Theorem stale_echo_fails fuel ble0 ble1 ble g p :
  0 < Z.of_nat (L2CAP_MAX_LEN / 2) < 65536 ->
  uint16 (counter g) = counter g ->
  read_bytes (rxData p) L2CAP_MAX_LEN = next_payload g ->
  exists out,
    AppCallback fuel ble
      (fst (send_loopback ble1 (fst (send_loopback ble0 g))))
      (CYBLE_EVT_L2CAP_CBFC_DATA_READ p)
    = Some (fst (send_loopback ble1 (fst (send_loopback ble0 g))), out)
    /\ wrap_failed ∈ out.
Proof.
  intros Hw Hc Hrx. cbn [AppCallback].
  destruct (Z.eqb_spec
              (memcmp
                 (word_bytes
                    (ipv6LoopbackBuffer
                       (fst (send_loopback ble1 (fst (send_loopback ble0 g))))))
                 (rxData p) L2CAP_MAX_LEN) 0) as [Heq|Hne].
  - apply memcmp_0 in Heq. rewrite Hrx in Heq.
    rewrite <- (send_loopback_buffer ble1) in Heq.
    by destruct (consecutive_payloads_differ ble0 g Hw Hc).
  - eexists. split; [reflexivity|].
    rewrite !elem_of_app, !elem_of_cons. auto.
Qed.

(** X14: a step writes at most one payload, of exactly [L2CAP_MAX_LEN]
    bytes, and an event handler writes none: sends come from the main
    loop only. *)
Theorem one_write_per_pass fuel g i g' out :
  step fuel g i = Some (g', out) ->
  (length (writes out) <= 1)%nat
  /\ (forall sent, sent ∈ writes out -> length sent = L2CAP_MAX_LEN)
  /\ (forall ble event, i = Event ble event -> writes out = []).
Proof.
  intros Hstep. split; [|split].
  - destruct (step_counter _ _ _ _ _ Hstep) as [(-> & _)|(-> & _)]; cbn; lia.
  - intros sent Hs.
    destruct (step_counter _ _ _ _ _ Hstep) as [(Hw & _)|(Hw & _)];
      rewrite Hw in Hs; [by apply elem_of_nil in Hs|].
    apply list_elem_of_singleton in Hs as ->. apply length_next_payload.
  - intros ble event ->. by apply (AppCallback_writes fuel ble g event g').
Qed.

End PayloadProofs.

Section ChannelProofs.

Context {cfg : main_h}.

(** ** The channel flag, the channel parameters, the interval *)

Lemma step_channel fuel g i g' out :
  step fuel g i = Some (g', out) ->
  l2capConnected g'
  = default (l2capConnected g) (last (channel_flags [i]))
  /\ l2capParameters g'
     = default (l2capParameters g) (last (confirmations [i])).
Proof.
  destruct i as [ble event|ble uart digit]; cbn [step].
  - intros H.
    destruct event; cbn [AppCallback] in H;
      try (by injection H as <- _).
    + destruct (CheckAdvPacketForServiceUuid _ _ _) as [present|]; [|done].
      destruct (present =? 0); [by injection H as <- _|]. injection H as H.
      replace g' with (fst (log_device g advReport)) by (by rewrite H).
      unfold log_device. destruct (logged_at _ _ _); [done|].
      by destruct (_ <? _).
    + destruct (CyBle_GetState ble); try destruct (state g) eqn:Hs;
        by injection H as <- _.
    + destruct (_ =? _); by injection H as <- _.
  - intros [= H].
    replace g' with (fst (main_poll ble g uart digit)) by (by rewrite H).
    pose proof (main_poll_frame ble g uart digit) as Hf.
    cbn zeta in Hf. by destruct Hf as (-> & -> & _).
Qed.

Lemma omap_last_default {A B} (f : A -> option B) (i : A) (l : list A) (d : B) :
  default (default d (last (omap f [i]))) (last (omap f l))
  = default d (last (omap f (i :: l))).
Proof.
  change (i :: l) with ([i] ++ l). rewrite omap_app, last_app.
  by destruct (last (omap f l)).
Qed.

(** X15: after any run, [l2capConnected] is what the latest channel
    confirmation (true) or channel disconnect indication (false) made of
    it, and [l2capParameters] is the parameter block of the latest
    confirmation; no other event, no link disconnect and no command
    changes either. *)
Theorem channel_state_follows_events fuel inputs :
  forall g g' out,
    run fuel g inputs = Some (g', out) ->
    l2capConnected g'
    = default (l2capConnected g) (last (channel_flags inputs))
    /\ l2capParameters g'
       = default (l2capParameters g) (last (confirmations inputs)).
Proof.
  induction inputs as [|i inputs IH]; intros g g' out; cbn [run].
  - by intros [= <- _].
  - destruct (step fuel g i) as [[g1 out1]|] eqn:Hstep; [|done].
    destruct (run fuel g1 inputs) as [[g2 out2]|] eqn:Hrun; [|done].
    intros [= <- _].
    destruct (step_channel _ _ _ _ _ Hstep) as (Hc & Hp).
    destruct (IH _ _ _ Hrun) as [-> ->]. rewrite Hc, Hp.
    unfold channel_flags, confirmations. by rewrite !omap_last_default.
Qed.

(** X16: the connection interval stored on a link-connected event or a
    connection-update event is the reported interval times 5/4 rounded
    down (units of 1.25 ms turned into milliseconds) exactly when the
    reported 16-bit value is at most 52428; above that the product no
    longer fits the 16-bit variable. *)
Theorem connIntv_in_ms fuel ble g event intv status latency sto :
  0 <= intv < 65536 ->
  event = CYBLE_EVT_GAP_DEVICE_CONNECTED intv
  \/ event = CYBLE_EVT_GAPC_CONNECTION_UPDATE_COMPLETE status intv latency sto ->
  exists g' out,
    AppCallback fuel ble g event = Some (g', out)
    /\ (connIntv g' = intv * 5 / 4 <-> intv <= 52428)
    /\ 0 <= connIntv g' < 65536.
Proof.
  intros Hi [-> | ->]; (eexists _, _; split; [reflexivity|]);
    cbn [connIntv set_connIntv]; rewrite (uint16_small intv) by done;
    pose proof (Z.div_mod (intv * 5) 4) as Hdm;
    pose proof (Z.mod_pos_bound (intv * 5) 4) as Hm;
    (split; [|apply uint16_range]); unfold uint16; split.
  - intros H. pose proof (Z.mod_pos_bound (intv * 5 / 4) (2 ^ 16)) as Hb.
    rewrite H in Hb. lia.
  - intros H. apply Z.mod_small. lia.
  - intros H. pose proof (Z.mod_pos_bound (intv * 5 / 4) (2 ^ 16)) as Hb.
    rewrite H in Hb. lia.
  - intros H. apply Z.mod_small. lia.
Qed.

End ChannelProofs.

(** ** The scanning LED *)

Lemma uint8_lxor_twice led a :
  uint8 (Z.lxor (uint8 (Z.lxor led a)) a) = uint8 led.
Proof.
  unfold uint8. change (2 ^ 8) with (2 ^ 8). rewrite <- !Z.land_ones by lia.
  apply Z.bits_inj'. intros n Hn.
  rewrite !Z.land_spec, !Z.lxor_spec, !Z.land_spec, !Z.lxor_spec.
  destruct (Z.ltb_spec n 8).
  - rewrite Z.ones_spec_low by lia.
    rewrite !andb_true_r. by destruct (Z.testbit led n), (Z.testbit a n).
  - rewrite Z.ones_spec_high by lia. by rewrite !andb_false_r.
Qed.

Lemma uint8_idemp z : uint8 (uint8 z) = uint8 z.
Proof. unfold uint8. apply Z.mod_mod. lia. Qed.

Lemma ticks_led LED_ON (states : list CYBLE_STATE_T) :
  forall led, uint8 led = led ->
    fst (ticks LED_ON states led)
    = if Nat.even (scanning_ticks states) then led
      else uint8 (Z.lxor led LED_ON).
Proof.
  induction states as [|s states IH]; intros led Hled; [done|].
  cbn [ticks].
  destruct (Timer_Interrupt LED_ON s led) as [led1 w1] eqn:Ht.
  destruct (ticks LED_ON states led1) as [led2 w2] eqn:Hr.
  cbn [fst]. replace led2 with (fst (ticks LED_ON states led1))
    by (by rewrite Hr).
  unfold Timer_Interrupt in Ht.
  destruct s; injection Ht as <- <-; cbn [scanning_ticks];
    try (by apply IH).
  rewrite IH by apply uint8_idemp. rewrite Nat.even_succ, <- Nat.negb_even.
  destruct (Nat.even (scanning_ticks states)); cbn; [done|].
  by rewrite uint8_lxor_twice.
Qed.

Lemma ticks_written LED_ON (states : list CYBLE_STATE_T) :
  forall led, uint8 led = led ->
    forall w, w ∈ snd (ticks LED_ON states led) ->
      w = led \/ w = uint8 (Z.lxor led LED_ON).
Proof.
  induction states as [|s states IH]; intros led Hled w; cbn [ticks].
  - by intros ?%elem_of_nil.
  - destruct (Timer_Interrupt LED_ON s led) as [led1 w1] eqn:Ht.
    destruct (ticks LED_ON states led1) as [led2 w2] eqn:Hr.
    cbn [snd]. replace w2 with (snd (ticks LED_ON states led1))
      by (by rewrite Hr).
    unfold Timer_Interrupt in Ht.
    destruct s; injection Ht as <- <-; rewrite elem_of_app;
      try (intros [?%elem_of_nil|Hw]; [done|by apply IH]).
    intros [->%list_elem_of_singleton|Hw]; [by right|].
    apply IH in Hw; [|apply uint8_idemp].
    rewrite uint8_lxor_twice, Hled in Hw. tauto.
Qed.

(** X17: over any sequence of timer ticks, the static [led] is [LED_OFF]
    after an even number of ticks that found the component scanning and
    [LED_OFF xor LED_ON] after an odd number; ticks in other states
    neither change nor write it, and nothing but these two values is
    ever written to the scanning LED. *)
Theorem led_blinks_while_scanning LED_ON LED_OFF states :
  uint8 LED_OFF = LED_OFF ->
  fst (ticks LED_ON states LED_OFF)
  = (if Nat.even (scanning_ticks states) then LED_OFF
     else uint8 (Z.lxor LED_OFF LED_ON))
  /\ (length (snd (ticks LED_ON states LED_OFF)) = scanning_ticks states)
  /\ forall w, w ∈ snd (ticks LED_ON states LED_OFF) ->
       w = LED_OFF \/ w = uint8 (Z.lxor LED_OFF LED_ON).
Proof.
  intros Hoff. split; [by apply ticks_led|]. split; [|by apply ticks_written].
  generalize LED_OFF. clear. induction states as [|s states IH]; intros led;
    [done|].
  cbn [ticks]. destruct (Timer_Interrupt LED_ON s led) as [led1 w1] eqn:Ht.
  specialize (IH led1).
  destruct (ticks LED_ON states led1) as [led2 w2]. cbn [snd] in *.
  rewrite length_app, IH. unfold Timer_Interrupt in Ht.
  by destruct s; injection Ht as <- <-.
Qed.

(** ** The extras on concrete inputs *)

Lemma sighting_without_uuid_list_ignored_witness :
  AppCallback (cfg:=small_config) 512 (quiet_stack CYBLE_STATE_SCANNING)
    one_entry (CYBLE_EVT_GAPC_SCAN_PROGRESS_RESULT plain_report)
  = Some (one_entry, []).
Proof.
  apply (sighting_without_uuid_list_ignored (cfg:=small_config) 512
           (quiet_stack CYBLE_STATE_SCANNING) one_entry plain_report).
  - lia.
  - intros off Hin. vm_compute in Hin.
    apply elem_of_cons in Hin as [->|Hin];
      [intros [H|H]; vm_compute in H; discriminate|].
    apply list_elem_of_singleton in Hin as ->.
    intros [H|H]; vm_compute in H; discriminate.
Defined.

Lemma registry_entries_from_sightings_witness :
  exists g out,
    run (cfg:=small_config) 512 (init (cfg:=small_config)) four_sightings
    = Some (g, out)
    /\ {| bdAddr := [7;7;7;7;7;7]; type := 1 |} ∈ registry g
    /\ exists r,
         r ∈ accepted_sightings 512 four_sightings
         /\ {| bdAddr := [7;7;7;7;7;7]; type := 1 |} = entry_of r.
Proof.
  eexists _, _. split; [reflexivity|].
  assert (Hin : {| bdAddr := [7;7;7;7;7;7]; type := 1 |}
                ∈ registry
                    {| connIntv := 0; l2capConnected := false;
                       l2capParameters :=
                         {| bdHandle := 0; lCid := 0; response := 0;
                            connParam := {| mtu := 0; mps := 0; credit := 0 |} |};
                       peerAddr :=
                         [ {| bdAddr := [1;2;3;4;5;6]; type := 0 |};
                           {| bdAddr := [7;7;7;7;7;7]; type := 1 |} ];
                       advDevices := 2; deviceN := 0; state := STATE_INIT;
                       ipv6LoopbackBuffer := [0; 0];
                       custom_command := 0; counter := 0; repeats := 0 |})
    by (apply (list_elem_of_lookup_2 _ 1%nat); reflexivity).
  split; [exact Hin|].
  eapply (registry_entries_from_sightings (cfg:=small_config) 512
            four_sightings); [reflexivity|exact Hin].
Defined.

Lemma registry_append_only_witness :
  exists g out g' out',
    run (cfg:=small_config) 512 (init (cfg:=small_config))
      (sightings [ipss_report [1;2;3;4;5;6] 0]
         (quiet_stack CYBLE_STATE_SCANNING))
    = Some (g, out)
    /\ run (cfg:=small_config) 512 g
         (sightings [ipss_report [7;7;7;7;7;7] 1]
            (quiet_stack CYBLE_STATE_SCANNING))
       = Some (g', out')
    /\ registry g `prefix_of` registry g'.
Proof.
  eexists _, _, _, _. split; [reflexivity|]. split; [reflexivity|].
  eapply (registry_append_only (cfg:=small_config) 512
            (sightings [ipss_report [1;2;3;4;5;6] 0]
               (quiet_stack CYBLE_STATE_SCANNING))
            (sightings [ipss_report [7;7;7;7;7;7] 1]
               (quiet_stack CYBLE_STATE_SCANNING)));
    [cbn; lia|reflexivity|reflexivity].
Defined.

Lemma accepted_sighting_registered_witness :
  exists g out g' out',
    run (cfg:=small_config) 512 (init (cfg:=small_config))
      (sightings [ipss_report [7;7;7;7;7;7] 1]
         (quiet_stack CYBLE_STATE_SCANNING))
    = Some (g, out)
    /\ accepted 512 (ipss_report [1;2;3;4;5;6] 0) = true
    /\ AppCallback (cfg:=small_config) 512 (quiet_stack CYBLE_STATE_SCANNING)
         g (CYBLE_EVT_GAPC_SCAN_PROGRESS_RESULT (ipss_report [1;2;3;4;5;6] 0))
       = Some (g', out')
    /\ (bdAddr (entry_of (ipss_report [1;2;3;4;5;6] 0))
          ∈ bdAddr <$> registry g'
        \/ advDevices g = Z.of_nat (CYBLE_MAX_ADV_DEVICES (main_h:=small_config))).
Proof.
  eexists _, _, _, _. split; [reflexivity|]. split; [reflexivity|].
  split; [reflexivity|].
  eapply (accepted_sighting_registered (cfg:=small_config) 512
            (sightings [ipss_report [7;7;7;7;7;7] 1]
               (quiet_stack CYBLE_STATE_SCANNING)) _ _
            (quiet_stack CYBLE_STATE_SCANNING)
            (ipss_report [1;2;3;4;5;6] 0));
    [cbn; lia|reflexivity|reflexivity|reflexivity].
Defined.

Lemma selected_device_in_bounds_witness :
  exists g out,
    run (cfg:=ten_config) 512 (init (cfg:=ten_config))
      select_seven_and_connect
    = Some (g, out)
    /\ 0 <= deviceN g <= 9
    /\ ((10 <= CYBLE_MAX_ADV_DEVICES (main_h:=ten_config))%nat ->
        forall a, a ∈ connects out -> is_Some a).
Proof.
  eexists _, _. split; [reflexivity|].
  eapply (selected_device_in_bounds (cfg:=ten_config) 512
            select_seven_and_connect).
  reflexivity.
Defined.

Lemma custom_command_is_send_witness :
  exists g out,
    run (cfg:=small_config) 512 (init (cfg:=small_config)) two_sends
    = Some (g, out)
    /\ (custom_command g = 0 \/ custom_command g = 49).
Proof.
  eexists _, _. split; [reflexivity|].
  eapply (custom_command_is_send (cfg:=small_config) 512 two_sends).
  reflexivity.
Defined.

Lemma pending_command_beats_typed_witness :
  main_poll (cfg:=small_config) (quiet_stack CYBLE_STATE_CONNECTED)
    send_pending 99 0
  = main_poll (cfg:=small_config) (quiet_stack CYBLE_STATE_CONNECTED)
      send_pending 100 0
  /\ custom_command
       (fst (main_poll (cfg:=small_config)
               (quiet_stack CYBLE_STATE_CONNECTED) send_pending 99 0)) = 0
  /\ fst (main_poll (cfg:=small_config)
            (quiet_stack CYBLE_STATE_CONNECTED) send_pending 99 0)
     = fst (run_command (cfg:=small_config)
              (quiet_stack CYBLE_STATE_CONNECTED)
              (set_custom_command send_pending 0)
              (custom_command send_pending) 0).
Proof.
  apply (pending_command_beats_typed (cfg:=small_config)
           (quiet_stack CYBLE_STATE_CONNECTED) send_pending 99 100 0);
    vm_compute; discriminate.
Defined.

Lemma no_hibernate_after_connect_command_witness :
  exists g' out,
    run (cfg:=small_config) 512 one_entry_connecting scan_stops_twice
    = Some (g', out)
    /\ state g' = STATE_CONNECTING
    /\ CySysPmHibernate ∉ calls out.
Proof.
  eexists _, _. split; [reflexivity|].
  eapply (no_hibernate_after_connect_command (cfg:=small_config) 512
            scan_stops_twice one_entry_connecting); reflexivity.
Defined.

Lemma counter_follows_writes_witness :
  exists g out,
    run (cfg:=small_config) 512 (init (cfg:=small_config)) two_sends
    = Some (g, out)
    /\ counter g
       = uint16 (Z.of_nat (L2CAP_MAX_LEN (main_h:=small_config) / 2)
                 * Z.of_nat (length (writes out)))
    /\ repeats g = uint16 (Z.of_nat (length (writes out))).
Proof.
  eexists _, _. split; [reflexivity|].
  eapply (counter_follows_writes (cfg:=small_config) 512 two_sends).
  reflexivity.
Defined.

Lemma stale_echo_fails_witness :
  exists out,
    AppCallback (cfg:=small_config) 512 (quiet_stack CYBLE_STATE_CONNECTED)
      (fst (send_loopback (cfg:=small_config)
              (quiet_stack CYBLE_STATE_CONNECTED)
              (fst (send_loopback (cfg:=small_config)
                      (quiet_stack CYBLE_STATE_CONNECTED)
                      (init (cfg:=small_config))))))
      (CYBLE_EVT_L2CAP_CBFC_DATA_READ (delivered [0; 0; 1; 0]))
    = Some (fst (send_loopback (cfg:=small_config)
                   (quiet_stack CYBLE_STATE_CONNECTED)
                   (fst (send_loopback (cfg:=small_config)
                           (quiet_stack CYBLE_STATE_CONNECTED)
                           (init (cfg:=small_config))))), out)
    /\ wrap_failed ∈ out.
Proof.
  apply (stale_echo_fails (cfg:=small_config) 512
           (quiet_stack CYBLE_STATE_CONNECTED)
           (quiet_stack CYBLE_STATE_CONNECTED)
           (quiet_stack CYBLE_STATE_CONNECTED)
           (init (cfg:=small_config)) (delivered [0; 0; 1; 0]));
    [by vm_compute|reflexivity|reflexivity].
Defined.

Lemma one_write_per_pass_witness :
  exists g' out,
    step (cfg:=small_config) 512 (init (cfg:=small_config))
      (Poll (quiet_stack CYBLE_STATE_CONNECTED) 49 0)
    = Some (g', out)
    /\ (length (writes out) <= 1)%nat
    /\ (forall sent, sent ∈ writes out
          -> length sent = L2CAP_MAX_LEN (main_h:=small_config))
    /\ (forall ble event,
          Poll (quiet_stack CYBLE_STATE_CONNECTED) 49 0 = Event ble event
          -> writes out = []).
Proof.
  eexists _, _. split; [reflexivity|].
  eapply (one_write_per_pass (cfg:=small_config) 512
            (init (cfg:=small_config))
            (Poll (quiet_stack CYBLE_STATE_CONNECTED) 49 0)).
  reflexivity.
Defined.

Lemma channel_state_follows_events_witness :
  exists g' out,
    run (cfg:=small_config) 512 (init (cfg:=small_config))
      channel_then_link_loss
    = Some (g', out)
    /\ l2capConnected g'
       = default (l2capConnected (init (cfg:=small_config)))
           (last (channel_flags channel_then_link_loss))
    /\ l2capParameters g'
       = default (l2capParameters (init (cfg:=small_config)))
           (last (confirmations channel_then_link_loss)).
Proof.
  eexists _, _. split; [reflexivity|].
  eapply (channel_state_follows_events (cfg:=small_config) 512
            channel_then_link_loss (init (cfg:=small_config))).
  reflexivity.
Defined.

Lemma connIntv_in_ms_witness :
  exists g' out,
    AppCallback (cfg:=small_config) 512 (quiet_stack CYBLE_STATE_CONNECTED)
      (init (cfg:=small_config)) (CYBLE_EVT_GAP_DEVICE_CONNECTED 60000)
    = Some (g', out)
    /\ (connIntv g' = 60000 * 5 / 4 <-> 60000 <= 52428)
    /\ 0 <= connIntv g' < 65536.
Proof.
  apply (connIntv_in_ms (cfg:=small_config) 512
           (quiet_stack CYBLE_STATE_CONNECTED) (init (cfg:=small_config))
           (CYBLE_EVT_GAP_DEVICE_CONNECTED 60000) 60000 0 0 0);
    [lia|by left].
Defined.

Lemma led_blinks_while_scanning_witness :
  fst (ticks 1 [CYBLE_STATE_SCANNING; CYBLE_STATE_CONNECTED;
                CYBLE_STATE_SCANNING; CYBLE_STATE_SCANNING] 0)
  = (if Nat.even
          (scanning_ticks [CYBLE_STATE_SCANNING; CYBLE_STATE_CONNECTED;
                           CYBLE_STATE_SCANNING; CYBLE_STATE_SCANNING])
     then 0 else uint8 (Z.lxor 0 1))
  /\ (length (snd (ticks 1 [CYBLE_STATE_SCANNING; CYBLE_STATE_CONNECTED;
                            CYBLE_STATE_SCANNING; CYBLE_STATE_SCANNING] 0))
      = scanning_ticks [CYBLE_STATE_SCANNING; CYBLE_STATE_CONNECTED;
                        CYBLE_STATE_SCANNING; CYBLE_STATE_SCANNING])
  /\ forall w,
       w ∈ snd (ticks 1 [CYBLE_STATE_SCANNING; CYBLE_STATE_CONNECTED;
                         CYBLE_STATE_SCANNING; CYBLE_STATE_SCANNING] 0) ->
       w = 0 \/ w = uint8 (Z.lxor 0 1).
Proof.
  apply (led_blinks_while_scanning 1 0
           [CYBLE_STATE_SCANNING; CYBLE_STATE_CONNECTED;
            CYBLE_STATE_SCANNING; CYBLE_STATE_SCANNING]).
  reflexivity.
Defined.
